(** * Token lifecycle of [FinancialNetworkService]

    A shallow embedding of [frontend/src/services/financialNetworkService.ts]
    (the revision that keeps an access token and a refresh token) together
    with the part of the JavaScript run time the class relies on: the axios
    response interceptor chain and the run-to-completion rule of the event
    loop.

    The service is a single object living in a single-threaded run time.
    Between two events (a call made by the application, or the network
    answering one HTTP request) every promise reaction that has become
    runnable is executed; nothing else interleaves.  One event is therefore
    one atomic transition of the state below, and [step] is a function. *)

From Stdlib Require Import ZArith.
From stdpp Require Import base tactics option strings list gmap pretty.

Local Open Scope string_scope.
Local Open Scope nat_scope.

(** ** Values travelling over HTTP *)

(** [response.data]: the JSON value [null], or a value with the two fields
    the service reads ([AuthResponse]) and the rest of the body, which the
    service hands to its caller untouched.  A body that is a string or a
    number has no field: reading one gives [undefined]. *)
Inductive Data :=
  | null
  | mkData (access refresh : option string) (payload : string).

(** [data?.access], [data?.refresh]: the field when the body has it. *)
Definition access (d : Data) : option string :=
  match d with
  | mkData a _ _ => a
  | null => None
  end.

Definition refresh (d : Data) : option string :=
  match d with
  | mkData _ r _ => r
  | null => None
  end.

Record Response := mkResponse {
  resp_status : Z;
  resp_data : Data
}.

(** What the network does with one request: it answers, or it does not
    (connection lost, timeout, ...), in which case axios has no response. *)
Inductive NetResult :=
  | Answered (r : Response)
  | NoAnswer (msg : string).

(** A JavaScript error value as the service inspects it: [error.message] and
    [error.response].  An [AxiosError] raised for a status code carries the
    response, one raised for a transport failure and a plain [Error] do not. *)
Record JsError := mkJsError {
  err_message : string;
  err_response : option Response
}.

(** [APIError] of [types.ts]. *)
Record APIError := mkAPIError {
  message : string;
  status : Z;
  details : option Data
}.

(** What a caller of the service can catch: the record built by
    [handleError], or an error value thrown as it is. *)
Inductive Thrown :=
  | ThrownAPIError (e : APIError)
  | ThrownError (e : JsError).

Inductive Outcome :=
  | Returned (d : Data)
  | ReturnedVoid
  | ReturnedToken (t : string)
  | Threw (t : Thrown).

(** JavaScript truthiness of a [string | null | undefined] value:
    [if (x)] holds for a non-empty string only. *)
Definition truthy (o : option string) : bool :=
  match o with
  | Some s => negb (String.eqb s "")
  | None => false
  end.

(** axios' default [validateStatus]: the promise is fulfilled for 2xx. *)
Definition validateStatus (s : Z) : bool := ((200 <=? s) && (s <? 300))%Z.

(** The error axios rejects with when the status is not accepted. *)
Definition status_error (r : Response) : JsError :=
  {| err_message := "Request failed with status code " +:+ pretty (resp_status r);
     err_response := Some r |}.

Definition transport_error (msg : string) : JsError :=
  {| err_message := msg; err_response := None |}.

(** [new Error(msg)] *)
Definition Error (msg : string) : JsError :=
  {| err_message := msg; err_response := None |}.

(** Reading a field of [null] throws a [TypeError], an [Error] whose message
    is worded by the JavaScript engine; the wording is that of V8.
    - [const { access, refresh } = response.data] *)
Definition cannot_destructure_null : JsError :=
  Error "Cannot destructure property 'access' of 'response.data' as it is null.".

(** - [response.data.access] *)
Definition cannot_read_null : JsError :=
  Error "Cannot read properties of null (reading 'access')".

(** [error.response?.status !== 401] *)
Definition status_is_not_401 (e : JsError) : bool :=
  match err_response e with
  | Some r => negb (resp_status r =? 401)%Z
  | None => true
  end.

(** ** The public operations *)

Inductive Method := GET | POST | PUT | DELETE.

(** A [Node], [Edge] or [Transaction] argument: its [id] and the remaining
    fields, serialised. *)
Record Entity := mkEntity { ent_id : Z; ent_fields : string }.

Inductive Operation :=
  | createNode (node : Entity)
  | getNodes
  | getNode (nodeId : Z)
  | updateNode (node : Entity)
  | deleteNode (nodeId : Z)
  | createEdge (edge : Entity)
  | getEdges
  | getEdge (edgeId : Z)
  | updateEdge (edge : Entity)
  | deleteEdge (edgeId : Z)
  | createTransaction (transaction : Entity)
  | getTransactions
  | getTransaction (transactionId : Z)
  | updateTransaction (transaction : Entity)
  | deleteTransaction (transactionId : Z)
  | simulateTransactions (params : string).

Definition item (collection : string) (id : Z) : string :=
  collection +:+ pretty id +:+ "/".

(** What an axios call carries as its body. *)
Inductive Body :=
  | NoBody
  | Fields (json : string)
  | Login_body (username password : string)
  | Refresh_body (refresh : string).

(** Method, URL and body of the axios call each operation makes. *)
Definition request_of (op : Operation) : Method * string * Body :=
  match op with
  | createNode n => (POST, "nodes/", Fields (ent_fields n))
  | getNodes => (GET, "nodes/", NoBody)
  | getNode i => (GET, item "nodes/" i, NoBody)
  | updateNode n => (PUT, item "nodes/" (ent_id n), Fields (ent_fields n))
  | deleteNode i => (DELETE, item "nodes/" i, NoBody)
  | createEdge e => (POST, "edges/", Fields (ent_fields e))
  | getEdges => (GET, "edges/", NoBody)
  | getEdge i => (GET, item "edges/" i, NoBody)
  | updateEdge e => (PUT, item "edges/" (ent_id e), Fields (ent_fields e))
  | deleteEdge i => (DELETE, item "edges/" i, NoBody)
  | createTransaction t => (POST, "transactions/", Fields (ent_fields t))
  | getTransactions => (GET, "transactions/", NoBody)
  | getTransaction i => (GET, item "transactions/" i, NoBody)
  | updateTransaction t =>
      (PUT, item "transactions/" (ent_id t), Fields (ent_fields t))
  | deleteTransaction i => (DELETE, item "transactions/" i, NoBody)
  | simulateTransactions p => (POST, "transactions/simulate/", Fields p)
  end.

(** The [delete...] operations await the call and return nothing; the
    others return [response.data]. *)
Definition returns_void (op : Operation) : bool :=
  match op with
  | deleteNode _ | deleteEdge _ | deleteTransaction _ => true
  | _ => false
  end.

(** ** Asynchronous activities *)

(** The code that awaits an axios call: one of the sixteen operations,
    [login], or [doRefreshToken] (with the token it put in the body). *)
Inductive Origin :=
  | FromOperation (op : Operation)
  | FromLogin (username password : string)
  | FromRefresh (refresh_body : string).

Inductive Phase :=
  | InFlight
      (* the HTTP request is on the wire *)
  | AwaitRefresh (p : nat) (initiator : bool)
      (* inside the interceptor, at [await this.refreshAccessToken()];
         [p] is the promise stored in [this.refreshing] at that time,
         [initiator] tells whether this call of [refreshAccessToken]
         created it (and so runs the [finally] block) *)
  | Settled (o : Outcome).

(** One axios call and its request configuration ([error.config]). *)
Record Task := mkTask {
  origin : Origin;
  _retry : bool;
  config_authorization : option string;
  phase : Phase
}.

(** The request line of the axios call made by each piece of code. *)
Definition request_line (o : Origin) : Method * string * Body :=
  match o with
  | FromOperation op => request_of op
  | FromLogin username password => (POST, "token/", Login_body username password)
  | FromRefresh refresh => (POST, "token/refresh/", Refresh_body refresh)
  end.

(** One HTTP request handed to the network. *)
Record Sent := mkSent {
  sent_task : nat;
  sent_origin : Origin;
  sent_authorization : option string
}.

Definition sent_url (s : Sent) : string := (request_line (sent_origin s)).1.2.

(** ** The state of the process *)

Record State := mkState {
  accessToken : option string;
  refreshToken : option string;
  refreshing : option nat;
  localStorage : gmap string string;
  (* axios.defaults.headers.common['Authorization'] *)
  Authorization : option string;
  (* every axios call made so far; a call is named by its position *)
  tasks : list Task;
  (* every HTTP request sent so far, oldest first *)
  wire : list Sent
}.

Definition set_tasks (f : list Task → list Task) (st : State) : State :=
  mkState (accessToken st) (refreshToken st) (refreshing st)
          (localStorage st) (Authorization st) (f (tasks st)) (wire st).

Definition set_refreshing (r : option nat) (st : State) : State :=
  mkState (accessToken st) (refreshToken st) r
          (localStorage st) (Authorization st) (tasks st) (wire st).

Definition set_wire (f : list Sent → list Sent) (st : State) : State :=
  mkState (accessToken st) (refreshToken st) (refreshing st)
          (localStorage st) (Authorization st) (tasks st) (f (wire st)).

Definition set_phase (ph : Phase) (t : Task) : Task :=
  mkTask (origin t) (_retry t) (config_authorization t) ph.

Definition set_retry (b : bool) (t : Task) : Task :=
  mkTask (origin t) b (config_authorization t) (phase t).

Definition set_config_authorization (h : option string) (t : Task) : Task :=
  mkTask (origin t) (_retry t) h (phase t).

Definition update_task (id : nat) (f : Task → Task) (st : State) : State :=
  set_tasks (alter f id) st.

Definition Bearer (token : string) : string := "Bearer " +:+ token.

(** ** The methods of the service *)

Definition setAuthHeader (token : string) (st : State) : State :=
  mkState (accessToken st) (refreshToken st) (refreshing st)
          (localStorage st) (Some (Bearer token)) (tasks st) (wire st).

Definition logout (st : State) : State :=
  mkState None None (refreshing st)
          (delete "refreshToken" (delete "accessToken" (localStorage st)))
          None (tasks st) (wire st).

(** [status: error.response?.status || 500]: a missing response and a
    status of [0] both give [500]. *)
Definition handleError (error : JsError) : APIError :=
  {| message := err_message error;
     status := match err_response error with
               | Some r => if (resp_status r =? 0)%Z then 500%Z else resp_status r
               | None => 500%Z
               end;
     details := resp_data <$> err_response error |}.

(** The constructor, run in a fresh process over the browser's storage. *)
Definition constructor (storage : gmap string string) : State :=
  let st := mkState (storage !! "accessToken") (storage !! "refreshToken")
                    None storage None [] [] in
  match accessToken st with
  | Some a => if truthy (Some a) then setAuthHeader a st else st
  | None => st
  end.

Definition restart (st : State) : State := constructor (localStorage st).

(** The assignments at the end of [login]. *)
Definition save (a r : string) (st : State) : State :=
  setAuthHeader a
    (mkState (Some a) (Some r) (refreshing st)
             (<["refreshToken" := r]> (<["accessToken" := a]> (localStorage st)))
             (Authorization st) (tasks st) (wire st)).

(** The assignments of [doRefreshToken] after a good response. *)
Definition save_access (a : string) (st : State) : State :=
  setAuthHeader a
    (mkState (Some a) (refreshToken st) (refreshing st)
             (<["accessToken" := a]> (localStorage st))
             (Authorization st) (tasks st) (wire st)).

(** ** axios *)

(** Handing call [id] to the network.  axios merges the default headers into
    the configuration when the request is made; a header already present in
    the configuration wins.  The merged header stays in the configuration
    ([error.config.headers]). *)
Definition send (id : nat) (st : State) : State :=
  match tasks st !! id with
  | Some t =>
      let h := match config_authorization t with
               | Some h => Some h
               | None => Authorization st
               end in
      set_wire (λ w, (w ++ [mkSent id (origin t) h])%list)
        (update_task id (λ t, set_phase InFlight (set_config_authorization h t)) st)
  | None => st
  end.

(** [axios.get(...)], [axios.post(...)], ...: a new call, sent at once. *)
Definition axios_call (o : Origin) (st : State) : State :=
  send (length (tasks st))
       (set_tasks (λ l, (l ++ [mkTask o false None InFlight])%list) st).

Definition finish (id : nat) (o : Outcome) (st : State) : State :=
  update_task id (set_phase (Settled o)) st.

(** How the promise returned by [doRefreshToken] settles. *)
Inductive Settlement :=
  | Fulfilled (token : string)
  | Rejected (e : JsError).

Definition outcome_of (r : Settlement) : Outcome :=
  match r with
  | Fulfilled t => ReturnedToken t
  | Rejected e => Threw (ThrownError e)
  end.

Definition settlement_of (ph : Phase) : option Settlement :=
  match ph with
  | Settled (ReturnedToken t) => Some (Fulfilled t)
  | Settled (Threw (ThrownError e)) => Some (Rejected e)
  | _ => None
  end.

Section Reactions.
(** Settling a [doRefreshToken] promise wakes the interceptors awaiting
    it, and a woken interceptor may in turn reject another such promise;
    the recursive call is a parameter here and is tied below. *)
Variable settle_rec : nat → Settlement → State → State.

(** The promise of axios call [id] is rejected with [e] (after the
    interceptor): the [catch] of the code awaiting it runs.
    - operations and [login]: [.catch(error => this.handleError(error))];
    - [doRefreshToken]: [this.logout(); throw error]. *)
Definition rejected (id : nat) (e : JsError) (st : State) : State :=
  match tasks st !! id with
  | Some t =>
      match origin t with
      | FromOperation _ | FromLogin _ _ =>
          finish id (Threw (ThrownAPIError (handleError e))) st
      | FromRefresh _ => settle_rec id (Rejected e) (logout st)
      end
  | None => st
  end.

(** The interceptor of call [w] continues after
    [await this.refreshAccessToken()] with settlement [r]:
    the [finally] of [refreshAccessToken] if this call created the
    promise; then either the header is replaced and the request made
    again, or the [catch] logs out and rejects with the same error. *)
Definition resume (w : nat) (initiator : bool) (r : Settlement)
    (st : State) : State :=
  let st := if initiator then set_refreshing None st else st in
  match r with
  | Fulfilled newAccessToken =>
      send w (update_task w
                (set_config_authorization (Some (Bearer newAccessToken))) st)
  | Rejected refreshError => rejected w refreshError (logout st)
  end.

Definition wake (p : nat) (r : Settlement) (st : State) (w : nat) : State :=
  match tasks st !! w with
  | Some t =>
      match phase t with
      | AwaitRefresh q i => if decide (q = p) then resume w i r st else st
      | _ => st
      end
  | None => st
  end.
End Reactions.

(** The promise of [doRefreshToken] call [p] settles with [r]; every
    interceptor awaiting it is resumed, in the order the calls were made.
    [fuel] bounds the depth of promises rejected by a woken interceptor. *)
Fixpoint settle (fuel : nat) (p : nat) (r : Settlement) (st : State) : State :=
  let st := finish p (outcome_of r) st in
  match fuel with
  | 0 => st
  | S f => foldl (wake (settle f) p r) st (seq 0 (length (tasks st)))
  end.

(** The body of [login] after [await axios.post('token/', ...)].  The
    destructuring of a [null] body throws before the tokens are looked at;
    nothing in [login] catches it. *)
Definition login_response (id : nat) (r : Response) (st : State) : State :=
  match resp_data r with
  | null => finish id (Threw (ThrownError cannot_destructure_null)) st
  | mkData access refresh _ =>
      match access, refresh with
      | Some a, Some f =>
          if negb (truthy (Some a)) || negb (truthy (Some f))
          then finish id (Threw (ThrownError (Error "Invalid token response"))) st
          else finish id ReturnedVoid (save a f st)
      | _, _ =>
          finish id (Threw (ThrownError (Error "Invalid token response"))) st
      end
  end.

(** The [try] block of [doRefreshToken] after its [await axios.post]; a
    [null] body and a missing access token both throw inside the [try], so
    the [catch] logs out and rethrows. *)
Definition refresh_response (fuel : nat) (id : nat) (r : Response)
    (st : State) : State :=
  match resp_data r with
  | null => settle fuel id (Rejected cannot_read_null) (logout st)
  | mkData access _ _ =>
      match access with
      | Some newAccessToken =>
          if truthy (Some newAccessToken)
          then settle fuel id (Fulfilled newAccessToken)
                      (save_access newAccessToken st)
          else settle fuel id (Rejected (Error "No access token received"))
                      (logout st)
      | None => settle fuel id (Rejected (Error "No access token received"))
                       (logout st)
      end
  end.

(** The promise of axios call [id] is fulfilled with response [r]. *)
Definition fulfilled (fuel : nat) (id : nat) (r : Response) (st : State)
    : State :=
  match tasks st !! id with
  | Some t =>
      match origin t with
      | FromOperation op =>
          finish id (if returns_void op then ReturnedVoid
                     else Returned (resp_data r)) st
      | FromLogin _ _ => login_response id r st
      | FromRefresh _ => refresh_response fuel id r st
      end
  | None => st
  end.

(** [refreshAccessToken], called by the interceptor of call [id]. *)
Definition refreshAccessToken (fuel : nat) (id : nat) (st : State) : State :=
  match refreshing st with
  | Some p =>
      (* return this.refreshing *)
      match tasks st !! p ≫= (λ t, settlement_of (phase t)) with
      | Some r => resume (settle fuel) id false r st
      | None => update_task id (set_phase (AwaitRefresh p false)) st
      end
  | None =>
      (* this.refreshing = this.doRefreshToken() *)
      match refreshToken st with
      | Some tok =>
          if truthy (Some tok) then
            let p := length (tasks st) in
            update_task id (set_phase (AwaitRefresh p true))
              (set_refreshing (Some p) (axios_call (FromRefresh tok) st))
          else
            resume (settle fuel) id true
                   (Rejected (Error "No refresh token available")) st
      | None =>
          (* [doRefreshToken] throws before its first [await]: the promise
             stored in [this.refreshing] is already rejected, the [await]
             rethrows and the [finally] resets the field in the same turn *)
          resume (settle fuel) id true
                 (Rejected (Error "No refresh token available")) st
      end
  end.

(** The response interceptor's error handler. *)
Definition interceptor (fuel : nat) (id : nat) (error : JsError)
    (st : State) : State :=
  match tasks st !! id with
  | Some originalRequest =>
      if status_is_not_401 error || _retry originalRequest
      then rejected (settle fuel) id error st
      else refreshAccessToken fuel id (update_task id (set_retry true) st)
  | None => st
  end.

(** The network settles the request of call [id]. *)
Definition deliver (id : nat) (n : NetResult) (st : State) : State :=
  match tasks st !! id with
  | Some t =>
      match phase t with
      | InFlight =>
          let fuel := length (tasks st) in
          match n with
          | Answered r =>
              if validateStatus (resp_status r)
              then fulfilled fuel id r st
              else interceptor fuel id (status_error r) st
          | NoAnswer msg => interceptor fuel id (transport_error msg) st
          end
      | _ => st
      end
  | None => st
  end.

(** ** Events *)

Inductive Event :=
  | Call (op : Operation)
  | Login (username password : string)
  | Logout
  | Deliver (id : nat) (n : NetResult).

Definition step (st : State) (ev : Event) : State :=
  match ev with
  | Call op => axios_call (FromOperation op) st
  | Login u p => axios_call (FromLogin u p) st
  | Logout => logout st
  | Deliver id n => deliver id n st
  end.

Definition run (st : State) (evs : list Event) : State := foldl step st evs.

Definition reachable (st : State) : Prop :=
  ∃ storage evs, st = run (constructor storage) evs.

(** ** Observations *)

Definition phase_of (st : State) (id : nat) : option Phase :=
  phase <$> tasks st !! id.

Definition is_refresh (o : Origin) : bool :=
  match o with FromRefresh _ => true | _ => false end.

Definition is_login (o : Origin) : bool :=
  match o with FromLogin _ _ => true | _ => false end.

(** The [Authorization] header call [t] goes out with. *)
Definition header_for (t : Task) (st : State) : option string :=
  match config_authorization t with
  | Some h => Some h
  | None => Authorization st
  end.

(** The requests for call [id] among a list of sent requests. *)
Definition sent_for (id : nat) (l : list Sent) : list Sent :=
  filter (λ x, sent_task x = id) l.

(** The number of times call [id] was handed to the network. *)
Definition sends (id : nat) (st : State) : nat :=
  length (filter (λ s, sent_task s = id) (wire st)).

(** The refresh requests among a list of sent requests. *)
Definition refresh_calls (w : list Sent) : list Sent :=
  filter (λ s, sent_url s = "token/refresh/") w.

(** The four places a credential lives in. *)
Definition credentials (st : State)
    : option string * option string * gmap string string * option string :=
  (accessToken st, refreshToken st, localStorage st, Authorization st).

Definition Unauthenticated (st : State) : Prop :=
  accessToken st = None ∧ refreshToken st = None ∧ Authorization st = None ∧
  localStorage st !! "accessToken" = None ∧
  localStorage st !! "refreshToken" = None.

(** The promise of call [q] has settled. *)
Definition settled (q : nat) (st : State) : Prop :=
  ∃ t o, tasks st !! q = Some t ∧ phase t = Settled o.

(** Call [t] is parked in the interceptor behind promise [p]. *)
Definition awaits (p : nat) (t : Task) : bool :=
  match phase t with
  | AwaitRefresh q _ => bool_decide (q = p)
  | _ => false
  end.

(** A parked call after the interceptor has made the request again with
    the new access token. *)
Definition retried (token : string) (t : Task) : Task :=
  set_phase InFlight (set_config_authorization (Some (Bearer token)) t).

(** A parked call after the interceptor has given up: its caller gets the
    record built from the refresh error. *)
Definition abandoned (e : JsError) (t : Task) : Task :=
  set_phase (Settled (Threw (ThrownAPIError (handleError e)))) t.

(** No refresh request is parked behind promise [p]. *)
Definition plain_waiters (p : nat) (st : State) : Prop :=
  ∀ w t, tasks st !! w = Some t → awaits p t = true →
         is_refresh (origin t) = false.

(** Calls [p] and [x] are recorded as [tp] and [tx]. *)
Definition held (p x : nat) (tp tx : Task) (st : State) : Prop :=
  tasks st !! p = Some tp ∧ tasks st !! x = Some tx.

Definition is_delivery (ev : Event) : Prop :=
  match ev with Deliver _ _ => True | _ => False end.

(** ** Kinds of answers *)

(** The error axios builds for a failed request. *)
Definition error_of (n : NetResult) : JsError :=
  match n with
  | NoAnswer msg => transport_error msg
  | Answered r => status_error r
  end.

(** A settlement of a request that does not enter the refresh path of the
    interceptor: no answer, an answer that is not 2xx and either not 401 or
    for a request already retried. *)
Definition fails_outside_refresh (t : Task) (n : NetResult) : Prop :=
  match n with
  | NoAnswer _ => True
  | Answered r =>
      validateStatus (resp_status r) = false ∧
      (resp_status r ≠ 401%Z ∨ _retry t = true)
  end.



(** A settlement of the refresh request that makes [doRefreshToken] throw
    without the interceptor parking the request: no answer, an answer that
    is neither 2xx nor a first 401, or a 2xx answer without access token. *)
Definition refresh_fails (t : Task) (n : NetResult) : Prop :=
  fails_outside_refresh t n ∨
  match n with
  | NoAnswer _ => False
  | Answered r =>
      validateStatus (resp_status r) = true ∧
      truthy (access (resp_data r)) = false
  end.

(** The error [doRefreshToken] throws for such a settlement. *)
Definition refresh_error (n : NetResult) : JsError :=
  match n with
  | NoAnswer msg => transport_error msg
  | Answered r =>
      if validateStatus (resp_status r)
      then match resp_data r with
           | null => cannot_read_null
           | mkData _ _ _ => Error "No access token received"
           end
      else status_error r
  end.

(** ** Invariants *)

(** An outcome that, when it is a failure, is a record built by
    [handleError]. *)
Definition surfaced_by_handleError (o : Outcome) : Prop :=
  ∀ x, o = Threw x → ∃ e, x = ThrownAPIError (handleError e).

(** What the history of a call can look like, [n] being the number of times
    it was sent. *)
Definition task_ok (n : nat) (t : Task) : Prop :=
  match phase t with
  | InFlight => n = if _retry t then 2 else 1
  | AwaitRefresh _ _ => _retry t = true ∧ n = 1
  | Settled o =>
      1 ≤ n ≤ 2 ∧
      (∀ op, origin t = FromOperation op → surfaced_by_handleError o)
  end.

Definition well_sent (st : State) : Prop :=
  ∀ s, s ∈ wire st → sent_task s < length (tasks st).

(** The history invariant: requests on the wire belong to known calls, and
    every call has a history [task_ok] allows. *)
Definition Inv (st : State) : Prop :=
  well_sent st ∧
  ∀ id t, tasks st !! id = Some t → task_ok (sends id st) t.

(** How [refreshing] relates to the calls:
    - a refresh request on the wire is the one [refreshing] points to;
    - the interceptor of a refresh request can only await its own promise;
    - the call whose [refreshAccessToken] created a promise awaits the
      promise stored in [refreshing];
    - at most one call is in that position. *)
Definition Coordinated (st : State) : Prop :=
  (∀ id t, tasks st !! id = Some t → is_refresh (origin t) = true →
           phase t = InFlight → refreshing st = Some id) ∧
  (∀ w t q i, tasks st !! w = Some t → phase t = AwaitRefresh q i →
              is_refresh (origin t) = true → q = w) ∧
  (∀ w t q, tasks st !! w = Some t → phase t = AwaitRefresh q true →
            refreshing st = Some q) ∧
  (∀ w w' t t' q q', tasks st !! w = Some t → tasks st !! w' = Some t' →
     phase t = AwaitRefresh q true → phase t' = AwaitRefresh q' true → w = w').

(** ** Sample runs *)

Definition answer (s : Z) (a r : option string) : NetResult :=
  Answered (mkResponse s (mkData a r "")).

Definition unauthorized : NetResult := answer 401 None None.

(** A process started over a storage that holds both tokens. *)
Definition logged_in : State :=
  constructor (<["refreshToken" := "R1"]> (<["accessToken" := "T1"]> ∅)).

(** A process started over an empty storage. *)
Definition logged_out : State := constructor ∅.

(** An operation called in a process without credentials. *)
Definition anonymous_call : State := step logged_out (Call getNodes).

(** One operation on the wire. *)
Definition one_call : State := run logged_in [Call getNodes].

(** One operation parked behind the refresh request (call 1). *)
Definition parked_one : State :=
  run logged_in [Call getNodes; Deliver 0 unauthorized].

(** One operation, retried after a refresh that gave ["T2"]. *)
Definition retried_once : State :=
  run logged_in [Call getNodes; Deliver 0 unauthorized;
                 Deliver 1 (answer 200 (Some "T2") None)].

(** A refresh answered with a new access token and a new refresh token. *)
Definition rotated : State :=
  step parked_one (Deliver 1 (answer 200 (Some "T2") (Some "R2"))).

(** [logout] while the refresh request is on the wire, then the answer. *)
Definition refreshed_after_logout : State :=
  run parked_one [Logout; Deliver 1 (answer 200 (Some "T2") None)].

(** Two operations parked behind the refresh request (call 2). *)
Definition parked_pair : State :=
  run logged_in [Call getNodes; Call getEdges;
                 Deliver 0 unauthorized; Deliver 1 unauthorized].

(** The refresh request of [parked_pair] is answered 401. *)
Definition deadlocked : State := step parked_pair (Deliver 2 unauthorized).

(** [login] called again in a session that holds both tokens. *)
Definition login_again : State := run logged_in [Login "user" "wrong"].

(** The state after [login] was answered 401 and the refresh it caused got
    no answer. *)
Definition login_rejected : State :=
  run login_again [Deliver 0 unauthorized; Deliver 1 (NoAnswer "Network Error")].

(** The scenario of three concurrent operations with an expired access
    token: all three are answered 401. *)
Definition three_parked : State :=
  run logged_in [Call getNodes; Call getEdges; Call getTransactions;
                 Deliver 0 unauthorized; Deliver 1 unauthorized;
                 Deliver 2 unauthorized].

(** ... the refresh succeeds with ["T2"] and the three retried requests are
    answered. *)
Definition three_done : State :=
  run three_parked [Deliver 3 (answer 200 (Some "T2") None);
                    Deliver 1 (answer 200 None None);
                    Deliver 0 (answer 200 None None);
                    Deliver 2 (answer 200 None None)].

(** ... the refresh token is refused with status 400. *)
Definition three_refused : State :=
  step three_parked (Deliver 3 (answer 400 None None)).

(** ** Ways a call can end *)

(** What the code awaiting a call can end with:
    - an operation returns the body ([delete...]: nothing) or throws the
      record of [handleError];
    - [login] returns, throws that record, or throws its own [Error];
    - [doRefreshToken] returns a non-empty token or rethrows an error. *)
Definition possible_outcome (o : Origin) (out : Outcome) : Prop :=
  match o with
  | FromOperation op =>
      (returns_void op = true ∧ out = ReturnedVoid) ∨
      (returns_void op = false ∧ ∃ d, out = Returned d) ∨
      ∃ e, out = Threw (ThrownAPIError (handleError e))
  | FromLogin _ _ =>
      out = ReturnedVoid ∨
      out = Threw (ThrownError (Error "Invalid token response")) ∨
      out = Threw (ThrownError cannot_destructure_null) ∨
      ∃ e, out = Threw (ThrownAPIError (handleError e))
  | FromRefresh _ =>
      (∃ tok, truthy (Some tok) = true ∧ out = ReturnedToken tok) ∨
      ∃ e, out = Threw (ThrownError e)
  end.

Definition Outcomes (st : State) : Prop :=
  ∀ id t o, tasks st !! id = Some t → phase t = Settled o →
            possible_outcome (origin t) o.

(** A settlement [doRefreshToken] can produce. *)
Definition sound_settlement (r : Settlement) : Prop :=
  ∀ tok, r = Fulfilled tok → truthy (Some tok) = true.

(** ** The login form ([LoginForm]) *)

Module LoginForm.

(** The four [useState] cells of the component. *)
Record state := mk {
  username : string;
  password : string;
  error : option string;
  isLoggedIn : bool
}.

(** [err instanceof Error ? err.message : 'Login failed']: the record
    thrown by [handleError] is a plain object, not an [Error]. *)
Definition shown (x : Thrown) : string :=
  match x with
  | ThrownError e => err_message e
  | ThrownAPIError _ => "Login failed"
  end.

(** [handleSubmit] up to its [await]: the call of [login]. *)
Definition handleSubmit (f : state) (st : State) : State :=
  step st (Login (username f) (password f)).

(** [handleSubmit] after the [await], [o] being how [login] ended. *)
Definition handleSubmit_settled (o : Outcome) (f : state) : state :=
  match o with
  | Threw x => mk (username f) (password f) (Some (shown x)) (isLoggedIn f)
  | _ => mk (username f) (password f) None true
  end.

Definition handleLogout (f : state) (st : State) : state * State :=
  (mk (username f) (password f) (error f) false, logout st).

End LoginForm.

(** ** The service with a single token (earlier revision of the file) *)

Module V1.

Record State := mkState {
  token : option string;
  localStorage : gmap string string;
  Authorization : option string
}.

Definition setAuthHeader (t : string) (st : State) : State :=
  mkState (token st) (localStorage st) (Some (Bearer t)).

Definition constructor (storage : gmap string string) : State :=
  let st := mkState (storage !! "authToken") storage None in
  match token st with
  | Some t => if truthy (Some t) then setAuthHeader t st else st
  | None => st
  end.

Definition restart (st : State) : State := constructor (localStorage st).

(** This revision installs no interceptor: the promise of an axios call is
    fulfilled with a 2xx response and rejected with axios' error otherwise. *)
Definition axios_settle (n : NetResult) : JsError + Response :=
  match n with
  | Answered r =>
      if validateStatus (resp_status r) then inr r else inl (status_error r)
  | NoAnswer msg => inl (transport_error msg)
  end.

(** [login], [n] being what the network does with the request. *)
Definition login (n : NetResult) (st : State) : State * Outcome :=
  match axios_settle n with
  | inl e => (st, Threw (ThrownAPIError (handleError e)))
  | inr r =>
      match resp_data r with
      | null => (st, Threw (ThrownError cannot_read_null))
      | mkData access _ _ =>
          match access with
          | Some t =>
              if truthy (Some t)
              then (setAuthHeader t
                      (mkState (Some t) (<["authToken" := t]> (localStorage st))
                               (Authorization st)),
                    ReturnedToken t)
              else (st, Threw (ThrownError (Error "No access token received")))
          | None => (st, Threw (ThrownError (Error "No access token received")))
          end
      end
  end.

Definition logout (st : State) : State :=
  mkState None (delete "authToken" (localStorage st)) None.

(** Any of the sixteen operations; none of them touches the state. *)
Definition operation (op : Operation) (n : NetResult) : Outcome :=
  match axios_settle n with
  | inl e => Threw (ThrownAPIError (handleError e))
  | inr r => if returns_void op then ReturnedVoid else Returned (resp_data r)
  end.

End V1.

(** ** Loading the graph ([NetworkGraph], [fetchNetworkData]) *)

Module NetworkGraph.

Section Fetch.
(** JavaScript numbers are left abstract; [Number(...)] and
    [String.prototype.toLowerCase] belong to the run time and are taken as
    they are. *)
Context {number : Type}.
Variable Number : number → number.
Variable toLowerCase : string → string.

(** [Node] and [Edge] of [types.ts], the fields the component reads. *)
Record APINode := mkAPINode {
  node_id : Z;
  node_name : string;
  node_type : string;
  node_balance : number
}.

Record APIEdge := mkAPIEdge {
  edge_id : Z;
  edge_source : Z;
  edge_target : Z;
  edge_weight : number
}.

Record NetworkNode := mkNode {
  id : string;
  name : string;
  type : string;
  balance : number
}.

(** A link holds the node objects themselves. *)
Record NetworkLink := mkLink {
  source : NetworkNode;
  target : NetworkNode;
  value : number
}.

Record state := mk {
  nodes : list NetworkNode;
  links : list NetworkLink;
  loading : bool;
  error : option string
}.

Definition transformNode (node : APINode) : NetworkNode :=
  {| id := pretty (node_id node);
     name := node_name node;
     type := toLowerCase (node_type node);
     balance := Number (node_balance node) |}.

(** [new Map(transformedNodes.map(node => [node.id, node]))]: entries are
    set in order, a later node replaces an earlier one with the same id. *)
Definition nodeMap (transformedNodes : list NetworkNode)
    : gmap string NetworkNode :=
  foldl (λ m node, <[id node := node]> m) ∅ transformedNodes.

Definition invalid_edge (edge : APIEdge) : JsError :=
  Error ("Invalid edge: source or target node not found for edge "
         +:+ pretty (edge_id edge)).

(** [edgesData.map(edge => ...)]: the callback runs edge by edge and the
    first [throw] ends the whole [map]. *)
Fixpoint transformLinks (m : gmap string NetworkNode) (edgesData : list APIEdge)
    : JsError + list NetworkLink :=
  match edgesData with
  | [] => inr []
  | edge :: rest =>
      match m !! pretty (edge_source edge), m !! pretty (edge_target edge) with
      | Some sourceNode, Some targetNode =>
          match transformLinks m rest with
          | inr ls =>
              inr ({| source := sourceNode; target := targetNode;
                      value := Number (edge_weight edge) |} :: ls)
          | inl err => inl err
          end
      | _, _ => inl (invalid_edge edge)
      end
  end.

(** [err instanceof Error ? err.message : 'Failed to fetch network data'] *)
Definition shown (x : Thrown) : string :=
  match x with
  | ThrownError e => err_message e
  | ThrownAPIError _ => "Failed to fetch network data"
  end.

(** [fetchNetworkData] up to its [await]. *)
Definition fetch_started (g : state) : state :=
  mk (nodes g) (links g) true None.

(** [fetchNetworkData] after [await Promise.all([getNodes(), getEdges()])],
    which threw [x] or gave both lists; the [finally] is included. *)
Definition fetch_settled (r : Thrown + list APINode * list APIEdge) (g : state)
    : state :=
  match r with
  | inl x => mk (nodes g) (links g) false (Some (shown x))
  | inr (nodesData, edgesData) =>
      let transformedNodes := transformNode <$> nodesData in
      match transformLinks (nodeMap transformedNodes) edgesData with
      | inr transformedLinks =>
          mk transformedNodes transformedLinks false (error g)
      | inl err => mk (nodes g) (links g) false (Some (err_message err))
      end
  end.

Definition fetchNetworkData (r : Thrown + list APINode * list APIEdge)
    (g : state) : state :=
  fetch_settled r (fetch_started g).

(** An edge whose two ends are among the fetched nodes. *)
Definition attached (nodesData : list APINode) (edge : APIEdge) : Prop :=
  edge_source edge ∈ node_id <$> nodesData ∧
  edge_target edge ∈ node_id <$> nodesData.


End Fetch.

(** Sample data: two nodes, an edge between them, and an edge to a node
    that is not there. *)
Definition sample_nodes : list (@APINode Z) :=
  [mkAPINode 1 "Checking" "Account" 5000%Z; mkAPINode 2 "Rent" "expense" 0%Z].

Definition sample_edge : @APIEdge Z := mkAPIEdge 10 1 2 2000%Z.

Definition dangling_edge : @APIEdge Z := mkAPIEdge 11 1 3 5%Z.

Definition blank : @state Z := mk [] [] true None.

End NetworkGraph.

(** Two operations on the wire, the first one answered 401: a refresh
    request (call 2) is on the wire. *)
Definition parked_first : State :=
  run logged_in [Call getNodes; Call getEdges; Deliver 0 unauthorized].

(** A process started over a storage that holds an access token only,
    with one operation on the wire. *)
Definition half_session : State :=
  run (constructor (<["accessToken" := "T1"]> ∅)) [Call getNodes].

(** The promise stored in [refreshing] was created by a call that still
    awaits it, in the [try] of [refreshAccessToken]. *)
Definition Started (st : State) : Prop :=
  ∀ p, refreshing st = Some p →
    ∃ w t, tasks st !! w = Some t ∧ phase t = AwaitRefresh p true.

(** The promise stored in [refreshing] is that of a refresh request which
    has not settled. *)
Definition Fresh (st : State) : Prop :=
  ∀ p, refreshing st = Some p →
    ∃ tp, tasks st !! p = Some tp ∧ is_refresh (origin tp) = true ∧
          settlement_of (phase tp) = None.

(** [logout] called while the refresh request (call 1) is on the wire. *)
Definition logged_out_refreshing : State :=
  run logged_in [Call getNodes; Deliver 0 unauthorized; Logout].

(** The one settlement of a request after which its interceptor awaits
    [refreshAccessToken]: a 401 for a request not yet retried. *)
Definition first_unauthorized (t : Task) (n : NetResult) : Prop :=
  match n with
  | Answered r => resp_status r = 401%Z ∧ _retry t = false
  | NoAnswer _ => False
  end.

(** * Persistence *)

Lemma constructor_tokens storage :
  accessToken (constructor storage) = storage !! "accessToken" ∧
  refreshToken (constructor storage) = storage !! "refreshToken".
Proof.
  unfold constructor; simpl.
  destruct (storage !! "accessToken") as [a|]; [|done].
  by destruct (negb (String.eqb a "")).
Qed.

Lemma restart_after_save st a r :
  accessToken (restart (save a r st)) = Some a ∧
  refreshToken (restart (save a r st)) = Some r.
Proof.
  unfold restart.
  destruct (constructor_tokens (localStorage (save a r st))) as [-> ->].
  simpl. split.
  - rewrite lookup_insert_ne by done. apply lookup_insert_eq.
  - apply lookup_insert_eq.
Qed.

Lemma restart_after_logout st :
  accessToken (restart (logout st)) = None ∧
  refreshToken (restart (logout st)) = None.
Proof.
  unfold restart.
  destruct (constructor_tokens (localStorage (logout st))) as [-> ->].
  simpl. split.
  - rewrite lookup_delete_ne by done. apply lookup_delete_eq.
  - apply lookup_delete_eq.
Qed.

(** C7. Saving a credential pair (the assignments of [login]) and running
    the constructor again in a new process over the same storage gives the
    same pair as in-memory tokens; after [logout] the new process has no
    token. *)
Theorem persistence_round_trip :
  (∀ st a r,
      accessToken (restart (save a r st)) = Some a ∧
      refreshToken (restart (save a r st)) = Some r) ∧
  (∀ st,
      accessToken (restart (logout st)) = None ∧
      refreshToken (restart (logout st)) = None).
Proof. split; [apply restart_after_save|apply restart_after_logout]. Qed.

(** * Elementary facts about the state transformers *)

Lemma lookup_update_task id f st j :
  tasks (update_task id f st) !! j =
  if decide (id = j) then f <$> tasks st !! id else tasks st !! j.
Proof. simpl. apply list_lookup_alter. Qed.

Lemma lookup_update_task_eq id f st t :
  tasks st !! id = Some t → tasks (update_task id f st) !! id = Some (f t).
Proof. intros H. rewrite lookup_update_task, decide_True by done. by rewrite H. Qed.

Lemma lookup_update_task_ne id f st j :
  id ≠ j → tasks (update_task id f st) !! j = tasks st !! j.
Proof. intros H. by rewrite lookup_update_task, decide_False. Qed.

Lemma lookup_finish_eq id o st t :
  tasks st !! id = Some t →
  tasks (finish id o st) !! id = Some (set_phase (Settled o) t).
Proof. apply lookup_update_task_eq. Qed.

Lemma lookup_finish_ne id o st j :
  id ≠ j → tasks (finish id o st) !! j = tasks st !! j.
Proof. apply lookup_update_task_ne. Qed.

Lemma send_eq id st t :
  tasks st !! id = Some t →
  send id st =
  set_wire (λ w, (w ++ [mkSent id (origin t) (header_for t st)])%list)
    (update_task id
       (λ u, set_phase InFlight (set_config_authorization (header_for t st) u))
       st).
Proof. intros H. unfold send. by rewrite H. Qed.

Lemma lookup_send_eq id st t :
  tasks st !! id = Some t →
  tasks (send id st) !! id =
  Some (set_phase InFlight (set_config_authorization (header_for t st) t)).
Proof.
  intros H. rewrite (send_eq _ _ _ H). simpl.
  rewrite list_lookup_alter_eq, H. done.
Qed.

Lemma lookup_send_ne id st j : id ≠ j → tasks (send id st) !! j = tasks st !! j.
Proof.
  intros H. unfold send. destruct (tasks st !! id) eqn:E; [|done].
  simpl. by rewrite list_lookup_alter_ne.
Qed.

Lemma wire_send id st t :
  tasks st !! id = Some t →
  wire (send id st) = (wire st ++ [mkSent id (origin t) (header_for t st)])%list.
Proof. intros H. by rewrite (send_eq _ _ _ H). Qed.

Lemma credentials_send id st : credentials (send id st) = credentials st.
Proof. unfold send. by destruct (tasks st !! id). Qed.

Lemma refreshing_send id st : refreshing (send id st) = refreshing st.
Proof. unfold send. by destruct (tasks st !! id). Qed.

Lemma length_tasks_send id st : length (tasks (send id st)) = length (tasks st).
Proof.
  unfold send. destruct (tasks st !! id); [|done]. simpl. apply length_alter.
Qed.

Lemma sends_app id st l :
  length (filter (λ s, sent_task s = id) (wire st ++ l)%list) =
  sends id st + length (filter (λ s, sent_task s = id) l).
Proof. unfold sends. by rewrite filter_app, length_app. Qed.

Lemma sends_send id st w t :
  tasks st !! w = Some t →
  sends id (send w st) = if decide (w = id) then S (sends id st) else sends id st.
Proof.
  intros H. unfold sends at 1. rewrite (wire_send _ _ _ H), sends_app.
  rewrite filter_cons, filter_nil. simpl.
  destruct (decide (w = id)); simpl; lia.
Qed.

Lemma axios_call_eq o st :
  axios_call o st =
  mkState (accessToken st) (refreshToken st) (refreshing st) (localStorage st)
          (Authorization st)
          (tasks st ++ [mkTask o false (Authorization st) InFlight])
          (wire st ++ [mkSent (length (tasks st)) o (Authorization st)]).
Proof.
  unfold axios_call, send. simpl.
  rewrite lookup_app_r, Nat.sub_diag by done. simpl.
  unfold set_wire, update_task, set_tasks. simpl. f_equal.
  rewrite <-(Nat.add_0_r (length (tasks st))) at 1.
  by rewrite alter_app_r.
Qed.


Lemma reachable_intro storage evs st :
  run (constructor storage) evs = st → reachable st.
Proof. intros <-. by exists storage, evs. Qed.

(** * Invariants carried through the settling of a refresh promise *)

Section SettleInvariant.
(** [P] is the property carried, [G] what is known of the promises that
    get settled on the way. *)
Variable P : State → Prop.
Variable G : nat → Prop.
Variable r : Settlement.

Hypothesis P_unset : ∀ st, P st → P (set_refreshing None st).
Hypothesis P_settle : ∀ p st t,
  G p → P st → tasks st !! p = Some t → is_refresh (origin t) = true →
  P (finish p (outcome_of r) st).
Hypothesis P_retry : ∀ tok w st t q i,
  G q → r = Fulfilled tok → P st → tasks st !! w = Some t →
  phase t = AwaitRefresh q i →
  P (send w (update_task w (set_config_authorization (Some (Bearer tok))) st)).
Hypothesis P_logout : ∀ e st, r = Rejected e → P st → P (logout st).
Hypothesis P_fail : ∀ e w st t q i,
  G q → r = Rejected e → P st → tasks st !! w = Some t →
  phase t = AwaitRefresh q i → is_refresh (origin t) = false →
  P (finish w (Threw (ThrownAPIError (handleError e))) st).
Hypothesis G_next : ∀ w st t q i,
  G q → P st → tasks st !! w = Some t → phase t = AwaitRefresh q i → G w.

Lemma wake_preserves_gen rec p :
  G p →
  (∀ w st t, G w → P st → tasks st !! w = Some t →
             is_refresh (origin t) = true → P (rec w r st)) →
  ∀ l st, P st → P (foldl (wake rec p r) st l).
Proof.
  intros HG Hrec l. induction l as [|w l IHl]; intros s Hs; simpl; [done|].
  apply IHl. unfold wake.
  destruct (tasks s !! w) as [tw|] eqn:Ew; [|done].
  destruct (phase tw) as [|q i|] eqn:Eph; [done| |done].
  destruct (decide (q = p)) as [->|]; [|done].
  unfold resume.
  set (s' := if i then set_refreshing None s else s).
  assert (P s') as Hs' by (subst s'; destruct i; auto).
  assert (tasks s' = tasks s) as Et by (subst s'; by destruct i).
  destruct r as [tok|e] eqn:Er.
  - eapply P_retry; eauto. by rewrite Et.
  - unfold rejected. simpl. rewrite Et, Ew.
    assert (tasks (logout s') !! w = Some tw) as El by (simpl; by rewrite Et).
    assert (G w) as HGw by (eapply (G_next w s'); eauto; by rewrite Et).
    destruct (origin tw) eqn:Eo.
    + apply (P_fail e w _ tw p i); [done|done|eauto|done|done|by rewrite Eo].
    + apply (P_fail e w _ tw p i); [done|done|eauto|done|done|by rewrite Eo].
    + apply (Hrec w _ tw); [done|eauto|done|by rewrite Eo].
Qed.

Lemma settle_preserves_gen fuel : ∀ p st t,
  G p → P st → tasks st !! p = Some t → is_refresh (origin t) = true →
  P (settle fuel p r st).
Proof.
  induction fuel as [|f IH]; intros p st t HG HP Hp Ho.
  { simpl. eapply P_settle; eauto. }
  change (settle (S f) p r st) with
    (foldl (wake (settle f) p r) (finish p (outcome_of r) st)
           (seq 0 (length (tasks (finish p (outcome_of r) st))))).
  apply wake_preserves_gen; [done|exact IH|]. eapply P_settle; eauto.
Qed.

Lemma settle_preserves_from_gen fuel p st t :
  G p → P (finish p (outcome_of r) st) →
  tasks st !! p = Some t → is_refresh (origin t) = true →
  P (settle fuel p r st).
Proof.
  intros HG HP Hp Ho. destruct fuel as [|f]; [done|].
  change (settle (S f) p r st) with
    (foldl (wake (settle f) p r) (finish p (outcome_of r) st)
           (seq 0 (length (tasks (finish p (outcome_of r) st))))).
  apply wake_preserves_gen; [done| |done].
  intros w s tw. apply settle_preserves_gen.
Qed.
End SettleInvariant.

Section SettleInvariantPlain.
Variable P : State → Prop.
Variable r : Settlement.

Hypothesis P_unset : ∀ st, P st → P (set_refreshing None st).
Hypothesis P_settle : ∀ p st t,
  P st → tasks st !! p = Some t → is_refresh (origin t) = true →
  P (finish p (outcome_of r) st).
Hypothesis P_retry : ∀ tok w st t q i,
  r = Fulfilled tok → P st → tasks st !! w = Some t →
  phase t = AwaitRefresh q i →
  P (send w (update_task w (set_config_authorization (Some (Bearer tok))) st)).
Hypothesis P_logout : ∀ e st, r = Rejected e → P st → P (logout st).
Hypothesis P_fail : ∀ e w st t,
  r = Rejected e → P st → tasks st !! w = Some t →
  is_refresh (origin t) = false →
  P (finish w (Threw (ThrownAPIError (handleError e))) st).

Lemma settle_preserves fuel p st t :
  P st → tasks st !! p = Some t → is_refresh (origin t) = true →
  P (settle fuel p r st).
Proof.
  apply (settle_preserves_gen P (λ _, True) r); eauto.
Qed.

Lemma settle_preserves_from fuel p st t :
  P (finish p (outcome_of r) st) →
  tasks st !! p = Some t → is_refresh (origin t) = true →
  P (settle fuel p r st).
Proof.
  apply (settle_preserves_from_gen P (λ _, True) r); eauto.
Qed.
End SettleInvariantPlain.

(** * The history invariant *)

Lemma Inv_same st st' :
  tasks st' = tasks st → wire st' = wire st → Inv st → Inv st'.
Proof.
  intros Et Ew [Hw Ht]. split.
  - intros x. unfold well_sent in Hw. rewrite Ew, Et. apply Hw.
  - intros id t. unfold sends. rewrite Ew, Et. apply Ht.
Qed.

Lemma Inv_modify st st' id :
  Inv st →
  (∀ j, j ≠ id → tasks st' !! j = tasks st !! j) →
  (∀ j, j ≠ id → sends j st' = sends j st) →
  well_sent st' →
  (∀ t', tasks st' !! id = Some t' → task_ok (sends id st') t') →
  Inv st'.
Proof.
  intros [_ Ht] Hl Hs Hw Hid. split; [done|].
  intros j t' Hj. destruct (decide (j = id)) as [->|Hne]; [by apply Hid|].
  rewrite Hs by done. apply Ht. by rewrite <-Hl.
Qed.

Lemma well_sent_same st st' :
  length (tasks st') = length (tasks st) → wire st' = wire st →
  well_sent st → well_sent st'.
Proof. intros El Ew Hw x. rewrite Ew, El. apply Hw. Qed.

Lemma well_sent_snoc st st' x :
  length (tasks st) ≤ length (tasks st') →
  wire st' = (wire st ++ [x])%list →
  sent_task x < length (tasks st') →
  well_sent st → well_sent st'.
Proof.
  intros El Ew Hx Hw y. rewrite Ew. intros [Hy| ->%list_elem_of_singleton]%elem_of_app.
  - specialize (Hw y Hy). lia.
  - done.
Qed.

Lemma Inv_finish id o st t :
  Inv st → tasks st !! id = Some t →
  (∀ op, origin t = FromOperation op → surfaced_by_handleError o) →
  Inv (finish id o st).
Proof.
  intros HI Hid Ho. apply (Inv_modify st _ id); try done.
  - intros j Hj. by apply lookup_finish_ne.
  - eapply well_sent_same; [| |apply HI]; [apply length_alter|done].
  - intros t'. rewrite (lookup_finish_eq _ _ _ _ Hid). intros [= <-].
    destruct HI as [_ Ht]. specialize (Ht id t Hid).
    unfold task_ok in *. simpl. change (sends id (finish id o st)) with (sends id st).
    split; [|done].
    destruct (phase t); [destruct (_retry t)| |]; lia || naive_solver lia.
Qed.

Lemma Inv_retry tok w st t q i :
  Inv st → tasks st !! w = Some t → phase t = AwaitRefresh q i →
  Inv (send w (update_task w (set_config_authorization (Some (Bearer tok))) st)).
Proof.
  intros HI Hw Hph.
  set (st1 := update_task w (set_config_authorization (Some (Bearer tok))) st).
  assert (tasks st1 !! w = Some (set_config_authorization (Some (Bearer tok)) t))
    as H1 by by apply lookup_update_task_eq.
  apply (Inv_modify st _ w); try done.
  - intros j Hj. rewrite lookup_send_ne by done. by apply lookup_update_task_ne.
  - intros j Hj. rewrite (sends_send _ _ _ _ H1). by rewrite decide_False.
  - eapply (well_sent_snoc st); [| |  |apply HI].
    + rewrite length_tasks_send. subst st1. simpl. by rewrite length_alter.
    + by rewrite (wire_send _ _ _ H1).
    + simpl. rewrite length_tasks_send. subst st1. simpl. rewrite length_alter.
      by eapply lookup_lt_Some.
  - intros t'. rewrite (lookup_send_eq _ _ _ H1). intros [= <-].
    rewrite (sends_send _ _ _ _ H1), decide_True by done.
    destruct HI as [_ Ht]. specialize (Ht w t Hw).
    unfold task_ok in *. rewrite Hph in Ht. simpl.
    change (sends w st1) with (sends w st). destruct Ht as [-> ->]. done.
Qed.

Lemma Inv_settle fuel p r st t :
  Inv st → tasks st !! p = Some t → is_refresh (origin t) = true →
  Inv (settle fuel p r st).
Proof.
  apply settle_preserves.
  - intros s. by apply Inv_same.
  - intros q s tq HI Hq Ho. eapply Inv_finish; eauto.
    intros op Hop. by rewrite Hop in Ho.
  - intros tok w s tw q i _. apply Inv_retry.
  - intros e s _. by apply Inv_same.
  - intros e w s tw _ HI Hw Ho. eapply Inv_finish; eauto.
    intros _ _ x [= <-]. eauto.
Qed.

Lemma Inv_settle_from fuel p r st t :
  Inv (finish p (outcome_of r) st) →
  tasks st !! p = Some t → is_refresh (origin t) = true →
  Inv (settle fuel p r st).
Proof.
  apply settle_preserves_from.
  - intros s. by apply Inv_same.
  - intros q s tq HI Hq Ho. eapply Inv_finish; eauto.
    intros op Hop. by rewrite Hop in Ho.
  - intros tok w s tw q i _. apply Inv_retry.
  - intros e s _. by apply Inv_same.
  - intros e w s tw _ HI Hw Ho. eapply Inv_finish; eauto.
    intros _ _ x [= <-]. eauto.
Qed.

Lemma Inv_constructor storage : Inv (constructor storage).
Proof.
  assert (∀ st, tasks st = [] → wire st = [] → Inv st) as H.
  { intros st Et Ew. split.
    - intros x. rewrite Ew. by intros ?%elem_of_nil.
    - intros id t. by rewrite Et. }
  apply H; unfold constructor; simpl;
    destruct (storage !! "accessToken") as [a|]; try done;
    by destruct (negb (String.eqb a "")).
Qed.

Lemma sends_fresh st : well_sent st → sends (length (tasks st)) st = 0.
Proof.
  intros Hw. unfold sends, well_sent in *.
  induction (wire st) as [|x l IH]; [done|].
  rewrite filter_cons_False.
  - apply IH. intros y Hy. apply Hw. by right.
  - intros Hx. specialize (Hw x (list_elem_of_here _ _)). lia.
Qed.

Lemma Inv_axios_call o st : Inv st → Inv (axios_call o st).
Proof.
  intros HI. unfold axios_call.
  set (n := length (tasks st)).
  set (new := mkTask o false None InFlight).
  set (st1 := set_tasks (λ l, (l ++ [new])%list) st).
  assert (tasks st1 !! n = Some new) as H1.
  { subst st1 n. simpl. by rewrite lookup_app_r, Nat.sub_diag. }
  apply (Inv_modify st _ n); try done.
  - intros j Hj. rewrite lookup_send_ne by done. subst st1. simpl.
    destruct (decide (j < n)) as [Hlt|Hge].
    + by rewrite lookup_app_l.
    + rewrite !lookup_ge_None_2; [done|subst n; lia|].
      rewrite length_app. simpl. subst n. lia.
  - intros j Hj. rewrite (sends_send _ _ _ _ H1). by rewrite decide_False.
  - eapply (well_sent_snoc st); [| | |apply HI].
    + rewrite length_tasks_send. subst st1. simpl. rewrite length_app. lia.
    + by rewrite (wire_send _ _ _ H1).
    + simpl. rewrite length_tasks_send. subst st1 n. simpl.
      rewrite length_app. simpl. lia.
  - intros t'. rewrite (lookup_send_eq _ _ _ H1). intros [= <-].
    rewrite (sends_send _ _ _ _ H1), decide_True by done.
    change (sends n st1) with (sends n st). subst n.
    rewrite sends_fresh by apply HI. done.
Qed.

Lemma Inv_rejected fuel id e st t :
  Inv st → tasks st !! id = Some t → Inv (rejected (settle fuel) id e st).
Proof.
  intros HI Hid. unfold rejected. rewrite Hid.
  assert (surfaced_by_handleError (Threw (ThrownAPIError (handleError e)))) as Hs.
  { intros x [= <-]. eauto. }
  destruct (origin t) eqn:Eo.
  - eapply Inv_finish; eauto.
  - eapply Inv_finish; eauto.
  - apply (Inv_settle _ _ _ _ t); [by apply (Inv_same st)|done|by rewrite Eo].
Qed.

Lemma Inv_fulfilled fuel id r st t :
  Inv st → tasks st !! id = Some t → Inv (fulfilled fuel id r st).
Proof.
  intros HI Hid. unfold fulfilled. rewrite Hid.
  destruct (origin t) eqn:Eo.
  - eapply Inv_finish; eauto. intros _ _ x Hx. by destruct (returns_void op).
  - unfold login_response.
    assert (∀ s x, Inv s → tasks s = tasks st →
                   Inv (finish id (Threw (ThrownError x)) s)) as Hraw.
    { intros s x Hs Es. apply (Inv_finish _ _ _ t); [done|by rewrite Es|].
      intros op Hop. by rewrite Hop in Eo. }
    destruct (resp_data r) as [|[a|] [f|] ?]; try by apply Hraw.
    destruct (negb (truthy (Some a)) || negb (truthy (Some f))); [by apply Hraw|].
    apply (Inv_finish _ _ _ t); [by apply (Inv_same st)|done|].
    intros op Hop. by rewrite Hop in Eo.
  - unfold refresh_response.
    assert (∀ s x, tasks s = tasks st → wire s = wire st →
                   Inv (settle fuel id x s)) as Hset.
    { intros s x Es Ew. apply (Inv_settle _ _ _ _ t);
        [by apply (Inv_same st)|by rewrite Es|by rewrite Eo]. }
    destruct (resp_data r) as [|[a|] ? ?]; [by apply Hset| |by apply Hset].
    destruct (truthy (Some a)); by apply Hset.
Qed.

(** The interceptor has just set [_retry] on a request that came back
    unauthorized for the first time. *)
Section FirstUnauthorized.
Variables (st : State) (id : nat) (t : Task).
Hypothesis HI : Inv st.
Hypothesis Hid : tasks st !! id = Some t.
Hypothesis Hph : phase t = InFlight.
Hypothesis Hre : _retry t = false.

Lemma first_sends : sends id st = 1.
Proof.
  destruct HI as [_ Ht]. specialize (Ht id t Hid).
  unfold task_ok in Ht. by rewrite Hph, Hre in Ht.
Qed.

Lemma first_lookup : tasks (update_task id (set_retry true) st) !! id = Some (set_retry true t).
Proof. by apply lookup_update_task_eq. Qed.

Lemma first_lookup_ne j : j ≠ id → tasks (update_task id (set_retry true) st) !! j = tasks st !! j.
Proof. intros. by apply lookup_update_task_ne. Qed.

Lemma first_well_sent s :
  length (tasks s) = length (tasks st) → wire s = wire st → well_sent s.
Proof. intros El Ew. eapply well_sent_same; [done|done|apply HI]. Qed.

Lemma Inv_await p i :
  Inv (update_task id (set_phase (AwaitRefresh p i)) (update_task id (set_retry true) st)).
Proof.
  apply (Inv_modify st _ id); try done.
  - intros j Hj. rewrite lookup_update_task_ne by done. by apply first_lookup_ne.
  - apply first_well_sent; [|done]. simpl. by rewrite !length_alter.
  - intros t'. rewrite (lookup_update_task_eq _ _ _ _ first_lookup).
    intros [= <-]. unfold task_ok. simpl. split; [done|]. apply first_sends.
Qed.

Lemma Inv_first_finish s o :
  tasks s = tasks (update_task id (set_retry true) st) → wire s = wire st →
  (∀ op, origin t = FromOperation op → surfaced_by_handleError o) →
  Inv (finish id o s).
Proof.
  intros Es Ew Ho. apply (Inv_modify st _ id); try done.
  - intros j Hj. rewrite lookup_finish_ne by done. rewrite Es.
    by apply first_lookup_ne.
  - intros j _. unfold sends. simpl. by rewrite Ew.
  - apply first_well_sent; [|done]. simpl. rewrite Es. simpl.
    by rewrite !length_alter.
  - intros t'. rewrite (lookup_finish_eq _ _ _ (set_retry true t))
      by (rewrite Es; apply first_lookup).
    intros [= <-]. unfold task_ok. simpl.
    replace (sends id (finish id o s)) with (sends id st)
      by (unfold sends; simpl; by rewrite Ew).
    rewrite first_sends. split; [lia|done].
Qed.

Lemma Inv_first_rejected fuel s e :
  tasks s = tasks (update_task id (set_retry true) st) → wire s = wire st →
  Inv (rejected (settle fuel) id e s).
Proof.
  intros Es Ew. unfold rejected. rewrite Es, first_lookup. simpl.
  assert (surfaced_by_handleError (Threw (ThrownAPIError (handleError e)))) as Hs.
  { intros x [= <-]. eauto. }
  destruct (origin t) eqn:Eo.
  - by apply Inv_first_finish.
  - by apply Inv_first_finish.
  - apply (Inv_settle_from _ _ _ _ (set_retry true t)).
    + apply Inv_first_finish; [done|done|]. intros op Hop. by rewrite Hop in Eo.
    + simpl. rewrite Es. apply first_lookup.
    + simpl. by rewrite Eo.
Qed.

Lemma Inv_first_resume fuel i r s :
  tasks s = tasks (update_task id (set_retry true) st) → wire s = wire st →
  Inv (resume (settle fuel) id i r s).
Proof.
  intros Es Ew. unfold resume.
  set (s' := if i then set_refreshing None s else s).
  assert (tasks s' = tasks (update_task id (set_retry true) st)) as Es' by (subst s'; by destruct i).
  assert (wire s' = wire st) as Ew' by (subst s'; by destruct i).
  clearbody s'. destruct r as [tok|e]; [|by apply Inv_first_rejected].
  set (s2 := update_task id (set_config_authorization (Some (Bearer tok))) s').
  assert (tasks s2 !! id =
          Some (set_config_authorization (Some (Bearer tok)) (set_retry true t)))
    as H2.
  { apply lookup_update_task_eq. rewrite Es'. apply first_lookup. }
  apply (Inv_modify st _ id); try done.
  - intros j Hj. rewrite lookup_send_ne by done. subst s2.
    rewrite lookup_update_task_ne by done. rewrite Es'. by apply first_lookup_ne.
  - intros j Hj. rewrite (sends_send _ _ _ _ H2), decide_False by done.
    unfold sends. simpl. by rewrite Ew'.
  - eapply (well_sent_snoc st); [| | |apply HI].
    + rewrite length_tasks_send. subst s2. simpl. rewrite Es'. simpl.
      by rewrite !length_alter.
    + rewrite (wire_send _ _ _ H2). subst s2. simpl. by rewrite Ew'.
    + simpl. rewrite length_tasks_send. subst s2. simpl. rewrite Es'. simpl.
      rewrite !length_alter. by eapply lookup_lt_Some.
  - intros t'. rewrite (lookup_send_eq _ _ _ H2). intros [= <-].
    rewrite (sends_send _ _ _ _ H2), decide_True by done.
    replace (sends id s2) with (sends id st)
      by (unfold sends; subst s2; simpl; by rewrite Ew').
    rewrite first_sends. done.
Qed.
End FirstUnauthorized.

Lemma Inv_start st id t o :
  Inv st → tasks st !! id = Some t → phase t = InFlight → _retry t = false →
  let st1 := update_task id (set_retry true) st in
  let p := length (tasks st1) in
  Inv (update_task id (set_phase (AwaitRefresh p true))
         (set_refreshing (Some p) (axios_call o st1))).
Proof.
  intros HI Hid Hph Hre st1 p.
  (* the same calls, the interceptor's bookkeeping done first *)
  set (stA := update_task id (set_phase (AwaitRefresh p true)) st1).
  assert (Inv (axios_call o stA)) as HB.
  { apply Inv_axios_call. by apply (Inv_await st id t). }
  assert (id < p) as Hlt.
  { subst p st1. simpl. rewrite length_alter. by eapply lookup_lt_Some. }
  assert (length (tasks stA) = p) as ElA.
  { subst stA p st1. simpl. by rewrite !length_alter. }
  set (new := mkTask o false None InFlight).
  set (s1 := set_tasks (λ l, (l ++ [new])%list) st1).
  set (sA := set_tasks (λ l, (l ++ [new])%list) stA).
  assert (tasks s1 !! p = Some new) as H1.
  { subst s1 p. simpl. by rewrite lookup_app_r, Nat.sub_diag. }
  assert (tasks sA !! p = Some new) as HA.
  { change (tasks sA) with (tasks stA ++ [new])%list.
    rewrite lookup_app_r by (rewrite ElA; lia). by rewrite ElA, Nat.sub_diag. }
  assert (axios_call o st1 = send p s1) as E1 by done.
  assert (axios_call o stA = send p sA) as EA.
  { unfold axios_call. by rewrite ElA. }
  rewrite EA in HB. rewrite E1.
  assert (id < length (tasks st)) as Hlen by by eapply lookup_lt_Some.
  assert (p = length (tasks st)) as Ep.
  { subst p st1. simpl. by rewrite length_alter. }
  eapply Inv_same; [| |exact HB].
  - apply list_eq. intros j. simpl.
    rewrite list_lookup_alter.
    destruct (decide (id = j)) as [<-|Hj].
    + rewrite !lookup_send_ne by lia. subst s1 sA stA. simpl.
      rewrite !lookup_app_l by (rewrite ?length_alter; lia).
      by rewrite (list_lookup_alter_eq (set_phase _)).
    + destruct (decide (p = j)) as [<-|Hp].
      * by rewrite (lookup_send_eq _ _ _ H1), (lookup_send_eq _ _ _ HA).
      * rewrite !lookup_send_ne by done. subst s1 sA stA. simpl.
        destruct (decide (j < p)).
        -- rewrite !lookup_app_l by (rewrite ?length_alter; lia).
           by rewrite (list_lookup_alter_ne (set_phase _)).
        -- rewrite !lookup_ge_None_2; [done| |];
             rewrite length_app, ?length_alter; simpl; lia.
  - simpl. by rewrite (wire_send _ _ _ H1), (wire_send _ _ _ HA).
Qed.

Lemma Inv_refreshAccessToken fuel st id t :
  Inv st → tasks st !! id = Some t → phase t = InFlight → _retry t = false →
  Inv (refreshAccessToken fuel id (update_task id (set_retry true) st)).
Proof.
  intros HI Hid Hph Hre. unfold refreshAccessToken.
  set (st1 := update_task id (set_retry true) st).
  change (refreshing st1) with (refreshing st).
  change (refreshToken st1) with (refreshToken st).
  destruct (refreshing st) as [p|].
  - destruct (tasks st1 !! p ≫= _) as [r|].
    + by apply (Inv_first_resume st id t).
    + by apply (Inv_await st id t).
  - destruct (refreshToken st) as [tok|].
    + destruct (truthy (Some tok)).
      * by apply (Inv_start st id t).
      * by apply (Inv_first_resume st id t).
    + by apply (Inv_first_resume st id t).
Qed.

Lemma Inv_interceptor fuel id e st t :
  Inv st → tasks st !! id = Some t → phase t = InFlight →
  Inv (interceptor fuel id e st).
Proof.
  intros HI Hid Hph. unfold interceptor. rewrite Hid.
  destruct (status_is_not_401 e || _retry t) eqn:E.
  - by apply (Inv_rejected _ _ _ _ t).
  - apply orb_false_iff in E as [_ E]. by apply (Inv_refreshAccessToken _ _ _ t).
Qed.

Lemma Inv_deliver id n st : Inv st → Inv (deliver id n st).
Proof.
  intros HI. unfold deliver.
  destruct (tasks st !! id) as [t|] eqn:Hid; [|done].
  destruct (phase t) eqn:Hph; try done.
  destruct n as [r|msg].
  - destruct (validateStatus (resp_status r)).
    + by apply (Inv_fulfilled _ _ _ _ t).
    + by apply (Inv_interceptor _ _ _ _ t).
  - by apply (Inv_interceptor _ _ _ _ t).
Qed.

Lemma Inv_step st ev : Inv st → Inv (step st ev).
Proof.
  intros HI. destruct ev; simpl.
  - by apply Inv_axios_call.
  - by apply Inv_axios_call.
  - by apply (Inv_same st).
  - by apply Inv_deliver.
Qed.

Lemma Inv_run evs : ∀ st, Inv st → Inv (run st evs).
Proof.
  induction evs as [|ev evs IH]; intros st HI; [done|].
  apply IH. by apply Inv_step.
Qed.

Lemma Inv_reachable st : reachable st → Inv st.
Proof. intros (storage & evs & ->). apply Inv_run, Inv_constructor. Qed.

(** * A refresh that succeeds *)

Lemma credentials_settle_fulfilled fuel p tok st t :
  tasks st !! p = Some t → is_refresh (origin t) = true →
  credentials (settle fuel p (Fulfilled tok) st) = credentials st.
Proof.
  intros Hp Ho.
  apply (settle_preserves (λ s, credentials s = credentials st) (Fulfilled tok))
    with (t := t); try done.
  - intros tok' w s tw q i _ Hs _ _. rewrite credentials_send. exact Hs.
Qed.

Lemma wake_fulfilled rec p tok s w :
  let s' := wake rec p (Fulfilled tok) s w in
  (∀ j, j ≠ w → tasks s' !! j = tasks s !! j) ∧
  match tasks s !! w with
  | Some t =>
      if awaits p t
      then tasks s' !! w = Some (retried tok t) ∧
           wire s' = (wire s ++ [mkSent w (origin t) (Some (Bearer tok))])%list
      else tasks s' !! w = Some t ∧ wire s' = wire s
  | None => tasks s' !! w = None ∧ wire s' = wire s
  end.
Proof.
  unfold wake, awaits. destruct (tasks s !! w) as [t|] eqn:Ew; [|done].
  destruct (phase t) as [|q i|] eqn:Eph; try done.
  destruct (decide (q = p)) as [->|Hne].
  2: { by rewrite bool_decide_eq_false_2. }
  rewrite bool_decide_eq_true_2 by done. unfold resume.
  set (s1 := if i then set_refreshing None s else s).
  assert (tasks s1 = tasks s) as Et by (subst s1; by destruct i).
  assert (wire s1 = wire s) as Ewi by (subst s1; by destruct i).
  set (s2 := update_task w (set_config_authorization (Some (Bearer tok))) s1).
  assert (tasks s2 !! w = Some (set_config_authorization (Some (Bearer tok)) t))
    as H2 by (apply lookup_update_task_eq; by rewrite Et).
  split; [|split].
  - intros j Hj. rewrite lookup_send_ne by done. subst s2.
    rewrite lookup_update_task_ne by done. by rewrite Et.
  - by rewrite (lookup_send_eq _ _ _ H2).
  - rewrite (wire_send _ _ _ H2). subst s2. simpl. by rewrite Ewi.
Qed.

Lemma wake_all_fulfilled rec p tok l : ∀ s,
  NoDup l →
  let s' := foldl (wake rec p (Fulfilled tok)) s l in
  (∀ j t, tasks s !! j = Some t →
     tasks s' !! j =
     Some (if bool_decide (j ∈ l) && awaits p t then retried tok t else t)) ∧
  ∃ added,
    wire s' = (wire s ++ added)%list ∧
    Forall (λ x, sent_authorization x = Some (Bearer tok)) added ∧
    ∀ j t, tasks s !! j = Some t →
      length (sent_for j added) =
      if bool_decide (j ∈ l) && awaits p t then 1 else 0.
Proof.
  induction l as [|w l IH]; intros s Hnd; simpl.
  { split; [done|]. exists []. by rewrite app_nil_r. }
  apply NoDup_cons in Hnd as [Hw Hnd].
  destruct (wake_fulfilled rec p tok s w) as [Hother Hat].
  set (s1 := wake rec p (Fulfilled tok) s w) in *.
  destruct (IH s1 Hnd) as [IHt (added & IHw & IHa & IHc)].
  assert (∀ j, j ≠ w → bool_decide (j ∈ w :: l) = bool_decide (j ∈ l)) as Hin.
  { intros j Hj. apply bool_decide_ext. rewrite elem_of_cons.
    split; [by intros [?|?]|by right]. }
  assert (bool_decide (w ∈ l) = false) as Hout by by apply bool_decide_eq_false_2.
  assert (bool_decide (w ∈ w :: l) = true) as Hhere
    by (apply bool_decide_eq_true_2; by left).
  split.
  - intros j t Hj. destruct (decide (j = w)) as [->|Hne].
    + rewrite Hhere. simpl. rewrite Hj in Hat.
      destruct (awaits p t); destruct Hat as [Hat _];
        rewrite (IHt _ _ Hat), Hout; done.
    + rewrite Hin by done. apply IHt. by rewrite Hother.
  - destruct (tasks s !! w) as [tw|] eqn:Ew.
    + destruct (awaits p tw) eqn:Eaw; destruct Hat as [Hat Hwire].
      * exists (mkSent w (origin tw) (Some (Bearer tok)) :: added).
        split; [|split].
        -- rewrite IHw, Hwire. by rewrite <-app_assoc.
        -- by constructor.
        -- intros j t Hj. unfold sent_for. rewrite filter_cons. simpl.
           destruct (decide (w = j)) as [<-|Hne].
           ++ rewrite Hhere. simplify_eq. rewrite Eaw. simpl.
              specialize (IHc _ _ Hat). rewrite Hout in IHc. simpl in IHc.
              unfold sent_for in IHc. by rewrite IHc.
           ++ rewrite Hin by done. apply IHc. by rewrite Hother.
      * exists added. split; [|split]; [by rewrite IHw, Hwire|done|].
        intros j t Hj. destruct (decide (j = w)) as [->|Hne].
        -- simplify_eq. rewrite Eaw, andb_false_r.
           specialize (IHc _ _ Hat). by rewrite Eaw, andb_false_r in IHc.
        -- rewrite Hin by done. apply IHc. by rewrite Hother.
    + destruct Hat as [Hat Hwire].
      exists added. split; [|split]; [by rewrite IHw, Hwire|done|].
      intros j t Hj. destruct (decide (j = w)) as [->|Hne]; [congruence|].
      rewrite Hin by done. apply IHc. by rewrite Hother.
Qed.

Lemma deliver_refresh_ok st p tp r tok :
  tasks st !! p = Some tp → is_refresh (origin tp) = true →
  phase tp = InFlight → validateStatus (resp_status r) = true →
  access (resp_data r) = Some tok → truthy (Some tok) = true →
  deliver p (Answered r) st =
  settle (length (tasks st)) p (Fulfilled tok) (save_access tok st).
Proof.
  intros Hp Ho Hph Hv Ha Ht. unfold deliver. rewrite Hp, Hph, Hv.
  unfold fulfilled. rewrite Hp. destruct (origin tp); try done.
  unfold refresh_response. destruct (resp_data r) as [|? ? ?]; [done|].
  simpl in Ha. by rewrite Ha, Ht.
Qed.

Lemma credentials_refresh_ok st p tp r tok :
  tasks st !! p = Some tp → is_refresh (origin tp) = true →
  phase tp = InFlight → validateStatus (resp_status r) = true →
  access (resp_data r) = Some tok → truthy (Some tok) = true →
  credentials (deliver p (Answered r) st) = credentials (save_access tok st).
Proof.
  intros Hp Ho Hph Hv Ha Ht.
  rewrite (deliver_refresh_ok _ _ _ _ _ Hp Ho Hph Hv Ha Ht).
  by apply (credentials_settle_fulfilled _ _ _ _ tp).
Qed.

(** The calls parked behind a refresh promise that is fulfilled. *)
Lemma parked_calls_retried st p tp r tok :
  tasks st !! p = Some tp → is_refresh (origin tp) = true →
  phase tp = InFlight → validateStatus (resp_status r) = true →
  access (resp_data r) = Some tok → truthy (Some tok) = true →
  ∃ added,
    wire (deliver p (Answered r) st) = (wire st ++ added)%list ∧
    Forall (λ x, sent_authorization x = Some (Bearer tok)) added ∧
    ∀ w t i, tasks st !! w = Some t → phase t = AwaitRefresh p i →
      length (sent_for w added) = 1 ∧
      tasks (deliver p (Answered r) st) !! w = Some (retried tok t).
Proof.
  intros Hp Ho Hph Hv Ha Ht.
  rewrite (deliver_refresh_ok _ _ _ _ _ Hp Ho Hph Hv Ha Ht).
  pose proof (lookup_lt_Some _ _ _ Hp) as Hlt.
  destruct (length (tasks st)) as [|f] eqn:El; [lia|].
  set (s0 := finish p (outcome_of (Fulfilled tok)) (save_access tok st)).
  change (settle (S f) p (Fulfilled tok) (save_access tok st)) with
    (foldl (wake (settle f) p (Fulfilled tok)) s0 (seq 0 (length (tasks s0)))).
  destruct (wake_all_fulfilled (settle f) p tok (seq 0 (length (tasks s0))) s0
              (NoDup_seq _ _)) as [Ht' (added & Hw & Ha' & Hc)].
  exists added. split; [exact Hw|]. split; [exact Ha'|].
  intros w t i Hw' Hphw.
  assert (w ≠ p) as Hne by (intros ->; congruence).
  assert (tasks s0 !! w = Some t) as H0.
  { subst s0. rewrite lookup_finish_ne by done. done. }
  assert (bool_decide (w ∈ seq 0 (length (tasks s0))) && awaits p t = true) as E.
  { apply andb_true_iff. split.
    - apply bool_decide_eq_true_2, elem_of_seq.
      apply lookup_lt_Some in H0. lia.
    - unfold awaits. rewrite Hphw. by apply bool_decide_eq_true_2. }
  specialize (Ht' _ _ H0). specialize (Hc _ _ H0). rewrite E in Ht', Hc. done.
Qed.

(** C3. When the refresh request of call [p] is answered with a new access
    token, the requests sent in that turn all carry [Bearer] followed by the
    new token, and every call parked behind [p] is sent exactly once and is
    in flight again with that header in its configuration. *)
Theorem queued_requests_retried_with_new_token st p tp r tok :
  tasks st !! p = Some tp → is_refresh (origin tp) = true →
  phase tp = InFlight → validateStatus (resp_status r) = true →
  access (resp_data r) = Some tok → truthy (Some tok) = true →
  ∃ added,
    wire (step st (Deliver p (Answered r))) = (wire st ++ added)%list ∧
    Forall (λ x, sent_authorization x = Some (Bearer tok)) added ∧
    ∀ w t i, tasks st !! w = Some t → phase t = AwaitRefresh p i →
      length (sent_for w added) = 1 ∧
      tasks (step st (Deliver p (Answered r))) !! w = Some (retried tok t).
Proof.
  intros Hp Ho Hph Hv Ha Ht.
  exact (parked_calls_retried st p tp r tok Hp Ho Hph Hv Ha Ht).
Qed.

Lemma queued_requests_retried_with_new_token_witness :
  ∃ added,
    wire (step parked_pair (Deliver 2 (answer 200 (Some "T2") None)))
    = (wire parked_pair ++ added)%list ∧
    Forall (λ x, sent_authorization x = Some (Bearer "T2")) added ∧
    ∀ w t i,
      tasks parked_pair !! w = Some t → phase t = AwaitRefresh 2 i →
      length (sent_for w added) = 1 ∧
      tasks (step parked_pair (Deliver 2 (answer 200 (Some "T2") None))) !! w
      = Some (retried "T2" t).
Proof.
  apply (queued_requests_retried_with_new_token parked_pair 2
           (mkTask (FromRefresh "R1") false (Some "Bearer T1") InFlight));
    reflexivity.
Defined.

(** * Requests settled outside the refresh path *)

Lemma deliver_failure st id t n :
  tasks st !! id = Some t → phase t = InFlight → is_refresh (origin t) = false →
  fails_outside_refresh t n →
  deliver id n st =
  finish id (Threw (ThrownAPIError (handleError (error_of n)))) st.
Proof.
  intros Hid Hph Ho Hn. unfold deliver. rewrite Hid, Hph.
  assert (∀ e fuel, status_is_not_401 e || _retry t = true →
            interceptor fuel id e st =
            finish id (Threw (ThrownAPIError (handleError e))) st) as Hi.
  { intros e fuel He. unfold interceptor. rewrite Hid, He.
    unfold rejected. rewrite Hid. by destruct (origin t). }
  destruct n as [r|msg]; simpl in *.
  - destruct Hn as [-> Hn]. apply Hi. unfold status_is_not_401. simpl.
    destruct Hn as [Hn| ->]; [|by rewrite orb_true_r].
    apply orb_true_iff. left. apply negb_true_iff. by apply Z.eqb_neq.
  - by apply Hi.
Qed.

(** A first 401 when no refresh is under way and no usable refresh token is
    held: [doRefreshToken] throws at once, the [finally] resets
    [refreshing], the [catch] of the interceptor logs out. *)
Lemma deliver_unauthorized_fails_fast st id t r :
  tasks st !! id = Some t → phase t = InFlight → _retry t = false →
  is_refresh (origin t) = false →
  resp_status r = 401%Z → refreshing st = None →
  truthy (refreshToken st) = false →
  deliver id (Answered r) st =
  finish id (Threw (ThrownAPIError
                      (handleError (Error "No refresh token available"))))
         (logout (set_refreshing None (update_task id (set_retry true) st))).
Proof.
  intros Hid Hph Hre Ho Hs Hr Ht.
  unfold deliver. rewrite Hid, Hph, Hs. simpl.
  unfold interceptor. rewrite Hid, Hre. unfold status_is_not_401. simpl.
  rewrite Hs. simpl. unfold refreshAccessToken. simpl. rewrite Hr.
  destruct (refreshToken st) as [tok|] eqn:Etok.
  - simpl in Ht. rewrite Ht. unfold resume, rejected. simpl.
    rewrite list_lookup_alter_eq, Hid. simpl. by destruct (origin t).
  - unfold resume, rejected. simpl.
    rewrite list_lookup_alter_eq, Hid. simpl. by destruct (origin t).
Qed.


(** C2. A call is handed to the network at most twice.  When a request that
    the interceptor has already retried comes back unauthorized again, it
    had been sent exactly twice, its caller gets the failure with status
    401, and in that turn nothing is sent, no call is created and
    [refreshing] is left alone: the request is neither parked nor the cause
    of a refresh. *)
Theorem request_retried_at_most_once st id t :
  reachable st → tasks st !! id = Some t →
  sends id st ≤ 2 ∧
  (is_refresh (origin t) = false → phase t = InFlight → _retry t = true →
   ∀ r, resp_status r = 401%Z →
     sends id st = 2 ∧
     phase_of (step st (Deliver id (Answered r))) id
     = Some (Settled (Threw (ThrownAPIError (handleError (status_error r))))) ∧
     status (handleError (status_error r)) = 401%Z ∧
     wire (step st (Deliver id (Answered r))) = wire st ∧
     length (tasks (step st (Deliver id (Answered r)))) = length (tasks st) ∧
     refreshing (step st (Deliver id (Answered r))) = refreshing st).
Proof.
  intros Hr Hid. destruct (Inv_reachable _ Hr) as [_ Ht].
  specialize (Ht id t Hid). unfold task_ok in Ht. split.
  - destruct (phase t); [destruct (_retry t)| |]; lia.
  - intros Ho Hph Hre r Hs. rewrite Hph, Hre in Ht. split; [done|].
    simpl. rewrite (deliver_failure _ _ _ _ Hid Hph Ho).
    2: { simpl. rewrite Hs. split; [done|by right]. }
    repeat split.
    + unfold phase_of. by rewrite (lookup_finish_eq _ _ _ _ Hid).
    + simpl. by rewrite Hs.
    + simpl. apply length_alter.
Qed.

Lemma request_retried_at_most_once_witness :
  sends 0 retried_once = 2 ∧
  phase_of (step retried_once (Deliver 0 unauthorized)) 0
  = Some (Settled (Threw (ThrownAPIError
       (mkAPIError "Request failed with status code 401" 401
                   (Some (mkData None None "")))))) ∧
  wire (step retried_once (Deliver 0 unauthorized)) = wire retried_once ∧
  refreshing (step retried_once (Deliver 0 unauthorized)) = None.
Proof.
  destruct (request_retried_at_most_once retried_once 0
              (mkTask (FromOperation getNodes) true (Some "Bearer T2") InFlight))
    as [_ H].
  - exists (<["refreshToken" := "R1"]> (<["accessToken" := "T1"]> ∅)),
      [Call getNodes; Deliver 0 unauthorized;
       Deliver 1 (answer 200 (Some "T2") None)]. reflexivity.
  - reflexivity.
  - destruct (H eq_refl eq_refl eq_refl (mkResponse 401 (mkData None None ""))
                eq_refl) as (H1 & H2 & _ & H4 & _ & H6).
    split; [exact H1|]. split; [exact H2|]. split; [exact H4|exact H6].
Defined.

(** * [login] *)

Lemma deliver_login_ok st id t r a f :
  tasks st !! id = Some t → is_login (origin t) = true → phase t = InFlight →
  validateStatus (resp_status r) = true →
  access (resp_data r) = Some a → refresh (resp_data r) = Some f →
  truthy (Some a) = true → truthy (Some f) = true →
  deliver id (Answered r) st = finish id ReturnedVoid (save a f st).
Proof.
  intros Hid Ho Hph Hv Ha Hf Hta Htf. unfold deliver. rewrite Hid, Hph, Hv.
  unfold fulfilled. rewrite Hid. destruct (origin t); try done.
  unfold login_response. destruct (resp_data r) as [|? ? ?]; [done|].
  simpl in Ha, Hf. by rewrite Ha, Hf, Hta, Htf.
Qed.


(** A successful [login] is a [save]: the pair it received is what a new
    process starts with. *)
Lemma login_survives_restart st id t r a f :
  tasks st !! id = Some t → is_login (origin t) = true → phase t = InFlight →
  validateStatus (resp_status r) = true →
  access (resp_data r) = Some a → refresh (resp_data r) = Some f →
  truthy (Some a) = true → truthy (Some f) = true →
  credentials (step st (Deliver id (Answered r))) = credentials (save a f st) ∧
  accessToken (restart (step st (Deliver id (Answered r)))) = Some a ∧
  refreshToken (restart (step st (Deliver id (Answered r)))) = Some f.
Proof.
  intros Hid Ho Hph Hv Ha Hf Hta Htf. simpl.
  rewrite (deliver_login_ok _ _ _ _ _ _ Hid Ho Hph Hv Ha Hf Hta Htf).
  split; [done|]. apply (restart_after_save st a f).
Qed.




(** * Token rotation and logout during a refresh *)

Lemma refresh_ok_credentials st p tp r tok :
  tasks st !! p = Some tp → is_refresh (origin tp) = true →
  phase tp = InFlight → validateStatus (resp_status r) = true →
  access (resp_data r) = Some tok → truthy (Some tok) = true →
  accessToken (deliver p (Answered r) st) = Some tok ∧
  localStorage (deliver p (Answered r) st) !! "accessToken" = Some tok ∧
  Authorization (deliver p (Answered r) st) = Some (Bearer tok) ∧
  refreshToken (deliver p (Answered r) st) = refreshToken st ∧
  localStorage (deliver p (Answered r) st) !! "refreshToken"
  = localStorage st !! "refreshToken".
Proof.
  intros Hp Ho Hph Hv Ha Ht.
  pose proof (credentials_refresh_ok _ _ _ _ _ Hp Ho Hph Hv Ha Ht) as E.
  unfold credentials in E. simpl in E. injection E as -> -> -> ->.
  repeat split.
  - apply lookup_insert_eq.
  - by rewrite lookup_insert_ne.
Qed.

(** C6, as the code has it.  A successful refresh leaves the refresh token,
    in memory and in storage, as it was, whatever the response says about
    a refresh token, and stores the new access token in memory, in storage
    and in the default header. *)
Theorem refresh_keeps_refresh_token st p tp r tok :
  tasks st !! p = Some tp → is_refresh (origin tp) = true →
  phase tp = InFlight → validateStatus (resp_status r) = true →
  access (resp_data r) = Some tok → truthy (Some tok) = true →
  refreshToken (step st (Deliver p (Answered r))) = refreshToken st ∧
  localStorage (step st (Deliver p (Answered r))) !! "refreshToken"
  = localStorage st !! "refreshToken" ∧
  accessToken (step st (Deliver p (Answered r))) = Some tok ∧
  localStorage (step st (Deliver p (Answered r))) !! "accessToken" = Some tok ∧
  Authorization (step st (Deliver p (Answered r))) = Some (Bearer tok).
Proof.
  intros Hp Ho Hph Hv Ha Ht. simpl.
  destruct (refresh_ok_credentials _ _ _ _ _ Hp Ho Hph Hv Ha Ht)
    as (H1 & H2 & H3 & H4 & H5). done.
Qed.

Lemma refresh_keeps_refresh_token_witness :
  refreshToken rotated = refreshToken parked_one ∧
  localStorage rotated !! "refreshToken"
  = localStorage parked_one !! "refreshToken" ∧
  accessToken rotated = Some "T2" ∧
  localStorage rotated !! "accessToken" = Some "T2" ∧
  Authorization rotated = Some (Bearer "T2").
Proof.
  apply (refresh_keeps_refresh_token parked_one 1
           (mkTask (FromRefresh "R1") false (Some "Bearer T1") InFlight)
           (mkResponse 200 (mkData (Some "T2") (Some "R2") "")));
    reflexivity.
Defined.

(** C6 as stated fails: the refresh response carries the new refresh token
    ["R2"]; the stored refresh token is still ["R1"]. *)
Lemma rotated_refresh_token_dropped :
  phase_of rotated 1 = Some (Settled (ReturnedToken "T2")) ∧
  refreshToken rotated = Some "R1" ∧
  localStorage rotated !! "refreshToken" = Some "R1" ∧
  refreshToken rotated ≠ Some "R2" ∧
  localStorage rotated !! "refreshToken" ≠ Some "R2".
Proof. repeat split; try reflexivity; vm_compute; discriminate. Qed.

(** C8, as the code has it.  [logout] is called while the refresh request
    of call [p] is on the wire; whatever happens next ([evs]), when that
    request is then answered with an access token the result is applied:
    the token is stored in memory, in storage and in the default header,
    and every call parked behind the refresh is sent again, once, with that
    token.  The refresh token is left as it was when the answer came:
    cleared, when nothing happened since the [logout]. *)
Theorem refresh_after_logout_stores_access_token st evs p tp0 tp r tok :
  tasks st !! p = Some tp0 → phase tp0 = InFlight →
  tasks (run st (Logout :: evs)) !! p = Some tp →
  is_refresh (origin tp) = true → phase tp = InFlight →
  validateStatus (resp_status r) = true →
  access (resp_data r) = Some tok → truthy (Some tok) = true →
  accessToken (run st (Logout :: evs ++ [Deliver p (Answered r)])%list)
  = Some tok ∧
  localStorage (run st (Logout :: evs ++ [Deliver p (Answered r)])%list)
    !! "accessToken" = Some tok ∧
  Authorization (run st (Logout :: evs ++ [Deliver p (Answered r)])%list)
  = Some (Bearer tok) ∧
  refreshToken (run st (Logout :: evs ++ [Deliver p (Answered r)])%list)
  = refreshToken (run st (Logout :: evs)) ∧
  localStorage (run st (Logout :: evs ++ [Deliver p (Answered r)])%list)
    !! "refreshToken"
  = localStorage (run st (Logout :: evs)) !! "refreshToken" ∧
  (∃ added,
     wire (run st (Logout :: evs ++ [Deliver p (Answered r)])%list)
     = (wire (run st (Logout :: evs)) ++ added)%list ∧
     Forall (λ x, sent_authorization x = Some (Bearer tok)) added ∧
     ∀ w t i, tasks (run st (Logout :: evs)) !! w = Some t →
       phase t = AwaitRefresh p i →
       length (sent_for w added) = 1 ∧
       tasks (run st (Logout :: evs ++ [Deliver p (Answered r)])%list) !! w
       = Some (retried tok t)) ∧
  (evs = [] →
   refreshToken (run st [Logout; Deliver p (Answered r)]) = None ∧
   localStorage (run st [Logout; Deliver p (Answered r)]) !! "refreshToken"
   = None).
Proof.
  intros _ _ Hp Ho Hph Hv Ha Ht.
  assert (run st (Logout :: evs ++ [Deliver p (Answered r)])%list
          = deliver p (Answered r) (run st (Logout :: evs))) as ->.
  { unfold run. rewrite app_comm_cons, foldl_app. done. }
  destruct (refresh_ok_credentials _ _ _ _ _ Hp Ho Hph Hv Ha Ht)
    as (H1 & H2 & H3 & H4 & H5).
  do 5 (split; [done|]). split.
  - exact (parked_calls_retried _ p tp r tok Hp Ho Hph Hv Ha Ht).
  - intros ->. simpl in *.
    destruct (refresh_ok_credentials (logout st) _ _ _ _ Hp Ho Hph Hv Ha Ht)
      as (_ & _ & _ & H4' & H5').
    split; [done|]. rewrite H5'. simpl. apply lookup_delete_eq.
Qed.

Lemma refresh_after_logout_stores_access_token_witness :
  accessToken refreshed_after_logout = Some "T2" ∧
  localStorage refreshed_after_logout !! "accessToken" = Some "T2" ∧
  Authorization refreshed_after_logout = Some (Bearer "T2") ∧
  refreshToken refreshed_after_logout = None ∧
  localStorage refreshed_after_logout !! "refreshToken" = None ∧
  tasks refreshed_after_logout !! 0
  = Some (retried "T2"
            (mkTask (FromOperation getNodes) true (Some "Bearer T1")
                    (AwaitRefresh 1 true))).
Proof.
  destruct (refresh_after_logout_stores_access_token parked_one [] 1
              (mkTask (FromRefresh "R1") false (Some "Bearer T1") InFlight)
              (mkTask (FromRefresh "R1") false (Some "Bearer T1") InFlight)
              (mkResponse 200 (mkData (Some "T2") None "")) "T2")
    as (H1 & H2 & H3 & _ & _ & (added & _ & _ & H6) & H7).
  - vm_compute. reflexivity.
  - reflexivity.
  - vm_compute. reflexivity.
  - reflexivity.
  - reflexivity.
  - reflexivity.
  - reflexivity.
  - reflexivity.
  - destruct (H7 eq_refl) as [H8 H9].
    destruct (H6 0 (mkTask (FromOperation getNodes) true (Some "Bearer T1")
                           (AwaitRefresh 1 true)) true) as [_ H10].
    + vm_compute. reflexivity.
    + reflexivity.
    + split; [exact H1|]. split; [exact H2|]. split; [exact H3|].
      split; [exact H8|]. split; [exact H9|exact H10].
Defined.

(** C8 as stated fails: after [logout] during the refresh and the good
    answer, the session is not unauthenticated; the access token ["T2"] is in
    memory, in storage and in the default header, and the parked operation
    is sent again with it. *)
Lemma logout_during_refresh_undone :
  Unauthenticated (step parked_one Logout) ∧
  accessToken refreshed_after_logout = Some "T2" ∧
  localStorage refreshed_after_logout !! "accessToken" = Some "T2" ∧
  Authorization refreshed_after_logout = Some "Bearer T2" ∧
  ¬ Unauthenticated refreshed_after_logout ∧
  last (wire refreshed_after_logout)
  = Some (mkSent 0 (FromOperation getNodes) (Some "Bearer T2")).
Proof.
  repeat split; try reflexivity. intros (H & _). vm_compute in H. discriminate.
Qed.

(** * A refresh request answered 401 *)

(** The interceptor also runs for the refresh request.  When that request is
    answered 401, its interceptor awaits [this.refreshing], the very promise
    that waits for this request.  Nothing settles such a promise afterwards:
    it and every call parked behind it keep their state whatever happens. *)
Section Deadlock.
Variables (p x : nat) (tp tx : Task) (ip ix : bool).
Hypothesis Hp : phase tp = AwaitRefresh p ip.
Hypothesis Hx : phase tx = AwaitRefresh p ix.

Lemma held_same s s' : tasks s' = tasks s → held p x tp tx s → held p x tp tx s'.
Proof. unfold held. by intros ->. Qed.

Lemma held_update w f s : w ≠ p → w ≠ x → held p x tp tx s → held p x tp tx (update_task w f s).
Proof.
  intros H1 H2 [H3 H4]. split; by rewrite lookup_update_task_ne.
Qed.

Lemma held_send w s : w ≠ p → w ≠ x → held p x tp tx s → held p x tp tx (send w s).
Proof. intros H1 H2 [H3 H4]. split; by rewrite lookup_send_ne. Qed.

Lemma held_apart s w t :
  held p x tp tx s → tasks s !! w = Some t →
  (∀ i, phase t ≠ AwaitRefresh p i) → w ≠ p ∧ w ≠ x.
Proof.
  intros [H1 H2] Hw Hne. split; intros ->; simplify_eq; by eapply Hne.
Qed.

Lemma held_apart_await s w t q i :
  held p x tp tx s → tasks s !! w = Some t → phase t = AwaitRefresh q i → q ≠ p →
  w ≠ p ∧ w ≠ x.
Proof.
  intros Hh Hw Hph Hq. apply (held_apart s w t Hh Hw).
  intros j Hj. rewrite Hph in Hj. by simplify_eq.
Qed.

Lemma held_settle fuel q r s t :
  q ≠ p ∧ q ≠ x → held p x tp tx s → tasks s !! q = Some t →
  is_refresh (origin t) = true → held p x tp tx (settle fuel q r s).
Proof.
  apply (settle_preserves_gen (held p x tp tx) (λ q, q ≠ p ∧ q ≠ x) r).
  - intros s0. by apply held_same.
  - intros q0 s0 t0 [? ?] Hh _ _. by apply held_update.
  - intros tok w s0 t0 q0 i [Hq _] _ Hh Hw Hph.
    destruct (held_apart_await _ _ _ _ _ Hh Hw Hph Hq).
    apply held_send; try done. by apply held_update.
  - intros e s0 _. by apply held_same.
  - intros e w s0 t0 q0 i [Hq _] _ Hh Hw Hph _.
    destruct (held_apart_await _ _ _ _ _ Hh Hw Hph Hq).
    by apply held_update.
  - intros w s0 t0 q0 i [Hq _] Hh Hw Hph.
    by apply (held_apart_await _ _ _ _ _ Hh Hw Hph Hq).
Qed.

Lemma held_rejected fuel id e s t :
  id ≠ p ∧ id ≠ x → held p x tp tx s → tasks s !! id = Some t →
  held p x tp tx (rejected (settle fuel) id e s).
Proof.
  intros [H1 H2] Hh Hid. unfold rejected. rewrite Hid.
  destruct (origin t) eqn:Eo; try by apply held_update.
  apply (held_settle _ _ _ _ t); [done|by apply (held_same s)|done|by rewrite Eo].
Qed.

Lemma held_resume fuel id i r s t :
  id ≠ p ∧ id ≠ x → held p x tp tx s → tasks s !! id = Some t →
  held p x tp tx (resume (settle fuel) id i r s).
Proof.
  intros Hne Hh Hid. unfold resume.
  set (s' := if i then set_refreshing None s else s).
  assert (tasks s' = tasks s) as Et by (subst s'; by destruct i).
  assert (held p x tp tx s') as Hh' by by apply (held_same s).
  destruct r as [tok|e].
  - destruct Hne. apply held_send; try done. by apply held_update.
  - apply (held_rejected _ _ _ _ t); [done|by apply (held_same s')|].
    simpl. by rewrite Et.
Qed.

Lemma held_axios_call o s : held p x tp tx s → held p x tp tx (axios_call o s).
Proof.
  intros [H1 H2]. rewrite axios_call_eq. split; simpl;
    by apply lookup_app_l_Some.
Qed.

Lemma held_deliver id n s : held p x tp tx s → held p x tp tx (deliver id n s).
Proof.
  intros Hh. unfold deliver.
  destruct (tasks s !! id) as [t|] eqn:Hid; [|done].
  destruct (phase t) eqn:Hph; try done.
  assert (id ≠ p ∧ id ≠ x) as Hne.
  { apply (held_apart s id t Hh Hid). intros i. by rewrite Hph. }
  assert (∀ e, held p x tp tx (interceptor (length (tasks s)) id e s)) as Hi.
  { intros e. unfold interceptor. rewrite Hid.
    destruct (status_is_not_401 e || _retry t);
      [by apply (held_rejected _ _ _ _ t)|].
    set (s1 := update_task id (set_retry true) s).
    assert (held p x tp tx s1) as H1 by (destruct Hne; by apply held_update).
    assert (tasks s1 !! id = Some (set_retry true t)) as Hid1
      by by apply lookup_update_task_eq.
    unfold refreshAccessToken.
    destruct (refreshing s1) as [q|].
    - destruct (tasks s1 !! q ≫= _) as [r|].
      + by apply (held_resume _ _ _ _ _ (set_retry true t)).
      + destruct Hne. by apply held_update.
    - destruct (refreshToken s1) as [tok|];
        [destruct (truthy (Some tok))|];
        try by apply (held_resume _ _ _ _ _ (set_retry true t)).
      destruct Hne. apply held_update; try done.
      apply (held_same (axios_call (FromRefresh tok) s1)); [done|].
      by apply held_axios_call. }
  destruct n as [r|msg]; [|apply Hi].
  destruct (validateStatus (resp_status r)); [|apply Hi].
  unfold fulfilled. rewrite Hid. destruct Hne.
  destruct (origin t) eqn:Eo.
  - by apply held_update.
  - unfold login_response.
    destruct (resp_data r) as [|[?|] [?|] ?];
      try by apply held_update.
    destruct (negb _ || negb _); apply held_update; try done.
  - unfold refresh_response.
    assert (∀ s' y, tasks s' = tasks s →
              held p x tp tx (settle (length (tasks s)) id y s')) as Hs.
    { intros s' y Es. apply (held_settle _ _ _ _ t);
        [done|by apply (held_same s)|by rewrite Es|by rewrite Eo]. }
    destruct (resp_data r) as [|[a|] ? ?]; [by apply Hs| |by apply Hs].
    destruct (truthy (Some a)); by apply Hs.
Qed.

Lemma held_run evs : ∀ s, held p x tp tx s → held p x tp tx (run s evs).
Proof.
  induction evs as [|ev evs IH]; intros s Hh; [done|].
  apply IH. destruct ev; simpl.
  - by apply held_axios_call.
  - by apply held_axios_call.
  - by apply (held_same s).
  - by apply held_deliver.
Qed.
End Deadlock.

Lemma tasks_deadlocked :
  tasks deadlocked =
  [mkTask (FromOperation getNodes) true (Some "Bearer T1") (AwaitRefresh 2 true);
   mkTask (FromOperation getEdges) true (Some "Bearer T1") (AwaitRefresh 2 false);
   mkTask (FromRefresh "R1") true (Some "Bearer T1") (AwaitRefresh 2 false)].
Proof. vm_compute. reflexivity. Qed.

Lemma deadlocked_ignores_network id n : deliver id n deadlocked = deadlocked.
Proof.
  unfold deliver. rewrite tasks_deadlocked.
  by destruct id as [|[|[|id]]].
Qed.

(** C4 on the code, for a refresh token the backend rejects with 401: the
    refresh request of [parked_pair] is answered 401.  [refreshing] still
    holds the promise, the interceptor of the refresh request awaits it,
    [logout] has not run (both tokens are in memory, in storage and in the
    default header), and no later answer of the network changes anything. *)
Theorem rejected_refresh_token_never_logs_out :
  refreshing deadlocked = Some 2 ∧
  phase_of deadlocked 2 = Some (AwaitRefresh 2 false) ∧
  accessToken deadlocked = Some "T1" ∧
  refreshToken deadlocked = Some "R1" ∧
  localStorage deadlocked !! "accessToken" = Some "T1" ∧
  localStorage deadlocked !! "refreshToken" = Some "R1" ∧
  Authorization deadlocked = Some "Bearer T1" ∧
  ∀ evs, Forall is_delivery evs → run deadlocked evs = deadlocked.
Proof.
  do 7 (split; [vm_compute; reflexivity|]).
  intros evs. induction 1 as [|ev evs Hev _ IH]; [reflexivity|].
  destruct ev as [| | |id n]; try (exfalso; exact Hev).
  change (run deadlocked (Deliver id n :: evs))
    with (run (deliver id n deadlocked) evs).
  rewrite deadlocked_ignores_network. exact IH.
Qed.

(** C1 on the code, same input: two operations came back unauthorized, one
    refresh request was sent, and it was answered 401.  Whatever happens
    next (answers, new calls, [login], [logout]), the two operations and
    the refresh stay parked: the callers never get a result. *)
Theorem parked_requests_never_resolve :
  length (refresh_calls (wire deadlocked)) = 1 ∧
  ∀ evs,
    phase_of (run deadlocked evs) 0 = Some (AwaitRefresh 2 true) ∧
    phase_of (run deadlocked evs) 1 = Some (AwaitRefresh 2 false) ∧
    phase_of (run deadlocked evs) 2 = Some (AwaitRefresh 2 false).
Proof.
  split; [reflexivity|]. intros evs.
  destruct (held_run 2 0 (mkTask (FromRefresh "R1") true (Some "Bearer T1")
                                 (AwaitRefresh 2 false))
              (mkTask (FromOperation getNodes) true (Some "Bearer T1")
                      (AwaitRefresh 2 true))
              false true eq_refl eq_refl evs deadlocked) as [H2 H0].
  { split; reflexivity. }
  destruct (held_run 2 1 (mkTask (FromRefresh "R1") true (Some "Bearer T1")
                                 (AwaitRefresh 2 false))
              (mkTask (FromOperation getEdges) true (Some "Bearer T1")
                      (AwaitRefresh 2 false))
              false false eq_refl eq_refl evs deadlocked) as [_ H1].
  { split; reflexivity. }
  unfold phase_of. by rewrite H0, H1, H2.
Qed.

(** * Single flight *)

Lemma settled_same q s s' : tasks s' = tasks s → settled q s → settled q s'.
Proof. unfold settled. by intros ->. Qed.

Lemma settled_finish q w o s t :
  tasks s !! w = Some t → settled q s → settled q (finish w o s).
Proof.
  intros Hw (tq & oq & Hq & Hph). destruct (decide (w = q)) as [->|Hne].
  - exists (set_phase (Settled o) t), o. by rewrite (lookup_finish_eq _ _ _ _ Hw).
  - exists tq, oq. by rewrite lookup_finish_ne.
Qed.

Lemma settled_apart q w s t p i :
  settled q s → tasks s !! w = Some t → phase t = AwaitRefresh p i → w ≠ q.
Proof. intros (tq & oq & Hq & Hph) Hw Hpw ->. simplify_eq. congruence. Qed.

Lemma settled_retry q w tok s t p i :
  tasks s !! w = Some t → phase t = AwaitRefresh p i → settled q s →
  settled q (send w (update_task w (set_config_authorization
                                      (Some (Bearer tok))) s)).
Proof.
  intros Hw Hph Hq. pose proof (settled_apart _ _ _ _ _ _ Hq Hw Hph) as Hne.
  destruct Hq as (tq & oq & Hq & Hphq). exists tq, oq.
  by rewrite lookup_send_ne, lookup_update_task_ne.
Qed.

Lemma settle_settled fuel p r st q t :
  settled q st → tasks st !! p = Some t → is_refresh (origin t) = true →
  settled q (settle fuel p r st).
Proof.
  apply settle_preserves.
  - intros s. by apply settled_same.
  - intros p0 s t0 Hq Hp0 _. by apply (settled_finish _ _ _ _ t0).
  - intros tok w s tw q0 i _ Hq Hw Hph. by apply (settled_retry _ _ _ _ tw q0 i).
  - intros e s _. by apply settled_same.
  - intros e w s tw _ Hq Hw _. by apply (settled_finish _ _ _ _ tw).
Qed.

Section SettleAfterSettled.
(** As [SettleInvariant], for properties that rely on the awaited promise
    having settled when an interceptor resumes. *)
Variable P : State → Prop.
Variable r : Settlement.

Hypothesis P_leave_ok : ∀ tok w st t q i,
  r = Fulfilled tok → P st → settled q st → tasks st !! w = Some t →
  phase t = AwaitRefresh q i →
  P (send w (update_task w (set_config_authorization (Some (Bearer tok)))
               (if i then set_refreshing None st else st))).
Hypothesis P_leave_fail : ∀ e w st t q i,
  r = Rejected e → P st → settled q st → tasks st !! w = Some t →
  phase t = AwaitRefresh q i → is_refresh (origin t) = false →
  P (finish w (Threw (ThrownAPIError (handleError e)))
       (logout (if i then set_refreshing None st else st))).
Hypothesis P_leave_refresh : ∀ e w st t q i,
  r = Rejected e → P st → settled q st → tasks st !! w = Some t →
  phase t = AwaitRefresh q i → is_refresh (origin t) = true →
  P (finish w (outcome_of r)
       (logout (logout (if i then set_refreshing None st else st)))).

Lemma settle_preserves_settled fuel : ∀ p st t,
  P (finish p (outcome_of r) st) → tasks st !! p = Some t →
  P (settle fuel p r st).
Proof.
  induction fuel as [|f IH]; intros p st t HP Hp; [done|].
  change (settle (S f) p r st) with
    (foldl (wake (settle f) p r) (finish p (outcome_of r) st)
           (seq 0 (length (tasks (finish p (outcome_of r) st))))).
  assert (settled p (finish p (outcome_of r) st)) as Hset.
  { eexists _, _. by rewrite (lookup_finish_eq _ _ _ _ Hp). }
  revert HP Hset. generalize (finish p (outcome_of r) st). intros s0 HP Hset.
  generalize (seq 0 (length (tasks s0))). intros l. revert s0 HP Hset.
  induction l as [|w l IHl]; intros s HP Hset; simpl; [done|].
  enough (P (wake (settle f) p r s w) ∧ settled p (wake (settle f) p r s w))
    as [? ?] by by apply IHl.
  unfold wake. destruct (tasks s !! w) as [tw|] eqn:Ew; [|done].
  destruct (phase tw) as [|q i|] eqn:Eph; [done| |done].
  destruct (decide (q = p)) as [->|]; [|done].
  unfold resume.
  set (s' := if i then set_refreshing None s else s).
  assert (tasks s' = tasks s) as Et by (subst s'; by destruct i).
  assert (settled p s') as Hset' by by apply (settled_same _ s).
  destruct r as [tok|e] eqn:Er.
  - split; [by eapply P_leave_ok|].
    apply (settled_retry _ _ _ _ tw p i); [by rewrite Et|done|done].
  - unfold rejected. simpl. rewrite Et, Ew.
    assert (∀ x, settled p (finish w x (logout s'))) as Hfin.
    { intros x. apply (settled_finish _ _ _ _ tw); [simpl; by rewrite Et|].
      by apply (settled_same _ s'). }
    destruct (origin tw) eqn:Eo.
    + split; [|done]. eapply P_leave_fail; eauto. by rewrite Eo.
    + split; [|done]. eapply P_leave_fail; eauto. by rewrite Eo.
    + split.
      * apply (IH _ _ tw); [|simpl; by rewrite Et].
        eapply P_leave_refresh; eauto. by rewrite Eo.
      * apply (settle_settled _ _ _ _ _ tw);
          [by apply (settled_same _ s')|simpl; by rewrite Et|by rewrite Eo].
Qed.
End SettleAfterSettled.

Lemma Coordinated_same st st' :
  tasks st' = tasks st → refreshing st' = refreshing st →
  Coordinated st → Coordinated st'.
Proof. unfold Coordinated. by intros -> ->. Qed.

(** A call that was on the wire is settled or sent again. *)
Lemma Coordinated_direct st st' id t :
  Coordinated st → tasks st !! id = Some t → phase t = InFlight →
  (∀ j, j ≠ id → tasks st' !! j = tasks st !! j) →
  (∀ t', tasks st' !! id = Some t' →
         origin t' = origin t ∧ ∀ q i, phase t' ≠ AwaitRefresh q i) →
  refreshing st' = refreshing st →
  Coordinated st'.
Proof.
  intros (Q1 & Q2 & Q4 & Q5) Hid Hph Hother Hnew Hr.
  assert (∀ w t' q i, tasks st' !! w = Some t' → phase t' = AwaitRefresh q i →
                      tasks st !! w = Some t') as Hold.
  { intros w t' q i Hw Hpw. destruct (decide (w = id)) as [->|Hne].
    - destruct (Hnew _ Hw) as [_ Hn]. by destruct (Hn q i).
    - by rewrite <-Hother. }
  repeat split.
  - intros j tj Hj Ho Hpj. rewrite Hr. destruct (decide (j = id)) as [->|Hne].
    + destruct (Hnew _ Hj) as [Eo _]. apply (Q1 id t); congruence.
    + apply (Q1 j tj); try done. by rewrite <-Hother.
  - intros w t' q i Hw Hpw. apply (Q2 w t' q i); eauto.
  - intros w t' q Hw Hpw. rewrite Hr. apply (Q4 w t' q); eauto.
  - intros w w' t1 t2 q q' H1 H2 Hp1 Hp2. apply (Q5 w w' t1 t2 q q'); eauto.
Qed.

(** An interceptor resumes after the promise it awaited has settled. *)
Lemma Coordinated_leave st st' w t q i :
  Coordinated st → tasks st !! w = Some t → phase t = AwaitRefresh q i →
  settled q st →
  (∀ j, j ≠ w → tasks st' !! j = tasks st !! j) →
  (∀ t', tasks st' !! w = Some t' →
         origin t' = origin t ∧ ∀ q' i', phase t' ≠ AwaitRefresh q' i') →
  refreshing st' = (if i then None else refreshing st) →
  Coordinated st'.
Proof.
  intros (Q1 & Q2 & Q4 & Q5) Hw Hph Hset Hother Hnew Hr.
  assert (is_refresh (origin t) = false) as Hnr.
  { destruct (is_refresh (origin t)) eqn:E; [|done].
    pose proof (Q2 _ _ _ _ Hw Hph E) as ->.
    by destruct (settled_apart _ _ _ _ _ _ Hset Hw Hph). }
  assert (∀ j tj, tasks st !! j = Some tj → is_refresh (origin tj) = true →
                  phase tj = InFlight → i = false) as Hnone.
  { intros j tj Hj Ho Hpj. destruct i; [|done].
    pose proof (Q4 _ _ _ Hw Hph) as E. rewrite (Q1 _ _ Hj Ho Hpj) in E.
    injection E as ->. destruct Hset as (tq & oq & Hq & Hpq). congruence. }
  assert (∀ v t' q' i', tasks st' !! v = Some t' →
            phase t' = AwaitRefresh q' i' →
            v ≠ w ∧ tasks st !! v = Some t') as Hold.
  { intros v t' q' i' Hv Hpv. destruct (decide (v = w)) as [->|Hne].
    - destruct (Hnew _ Hv) as [_ Hn]. by destruct (Hn q' i').
    - split; [done|]. by rewrite <-Hother. }
  repeat split.
  - intros j tj Hj Ho Hpj. destruct (decide (j = w)) as [->|Hne].
    + destruct (Hnew _ Hj) as [Eo _]. congruence.
    + rewrite Hother in Hj by done.
      rewrite Hr, (Hnone _ _ Hj Ho Hpj). by apply (Q1 j tj).
  - intros v t' q' i' Hv Hpv. destruct (Hold _ _ _ _ Hv Hpv). by apply (Q2 v t' q' i').
  - intros v t' q' Hv Hpv. destruct (Hold _ _ _ _ Hv Hpv) as [Hne Hv'].
    rewrite Hr. destruct i.
    + destruct Hne. by apply (Q5 v w t' t q' q).
    + by apply (Q4 v t' q').
  - intros v v' t1 t2 q1 q2 H1 H2 Hp1 Hp2.
    destruct (Hold _ _ _ _ H1 Hp1), (Hold _ _ _ _ H2 Hp2).
    by apply (Q5 v v' t1 t2 q1 q2).
Qed.

(** An interceptor starts to await the promise in [refreshing]. *)
Lemma Coordinated_join st st' id t p :
  Coordinated st → tasks st !! id = Some t → phase t = InFlight →
  refreshing st = Some p →
  (∀ j, j ≠ id → tasks st' !! j = tasks st !! j) →
  (∀ t', tasks st' !! id = Some t' →
         origin t' = origin t ∧ phase t' = AwaitRefresh p false) →
  refreshing st' = refreshing st →
  Coordinated st'.
Proof.
  intros (Q1 & Q2 & Q4 & Q5) Hid Hph Hrf Hother Hnew Hr.
  repeat split.
  - intros j tj Hj Ho Hpj. rewrite Hr. destruct (decide (j = id)) as [->|Hne].
    + destruct (Hnew _ Hj) as [_ E]. congruence.
    + apply (Q1 j tj); try done. by rewrite <-Hother.
  - intros w t' q i Hw Hpw Ho. destruct (decide (w = id)) as [->|Hne].
    + destruct (Hnew _ Hw) as [Eo E]. rewrite E in Hpw. injection Hpw as <- <-.
      rewrite Eo in Ho. pose proof (Q1 _ _ Hid Ho Hph). congruence.
    + apply (Q2 w t' q i); try done. by rewrite <-Hother.
  - intros w t' q Hw Hpw. rewrite Hr. destruct (decide (w = id)) as [->|Hne].
    + destruct (Hnew _ Hw) as [_ E]. congruence.
    + apply (Q4 w t' q); try done. by rewrite <-Hother.
  - intros w w' t1 t2 q q' H1 H2 Hp1 Hp2.
    destruct (decide (w = id)) as [->|Hne].
    { destruct (Hnew _ H1) as [_ E]. congruence. }
    destruct (decide (w' = id)) as [->|Hne'].
    { destruct (Hnew _ H2) as [_ E]. congruence. }
    apply (Q5 w w' t1 t2 q q'); try done; by rewrite <-Hother.
Qed.

(** An interceptor creates the refresh promise [p] and awaits it. *)
Lemma Coordinated_start st st' id t p :
  Coordinated st → tasks st !! id = Some t → phase t = InFlight →
  refreshing st = None → tasks st !! p = None →
  (∀ j, j ≠ id → j ≠ p → tasks st' !! j = tasks st !! j) →
  (∀ t', tasks st' !! id = Some t' →
         origin t' = origin t ∧ phase t' = AwaitRefresh p true) →
  (∀ t', tasks st' !! p = Some t' → phase t' = InFlight) →
  refreshing st' = Some p →
  Coordinated st'.
Proof.
  intros (Q1 & Q2 & Q4 & Q5) Hid Hph Hrf Hp Hother Hnew Hnewp Hr.
  assert (id ≠ p) as Hidp by congruence.
  assert (∀ w t' q i, tasks st' !! w = Some t' → phase t' = AwaitRefresh q i →
            w = id ∨ (w ≠ id ∧ w ≠ p ∧ tasks st !! w = Some t')) as Hold.
  { intros w t' q i Hw Hpw. destruct (decide (w = id)) as [->|Hne]; [by left|].
    right. destruct (decide (w = p)) as [->|Hnp].
    - pose proof (Hnewp _ Hw). congruence.
    - by rewrite <-Hother. }
  repeat split.
  - intros j tj Hj Ho Hpj. rewrite Hr.
    destruct (decide (j = p)) as [->|Hnp]; [done|].
    destruct (decide (j = id)) as [->|Hne].
    + destruct (Hnew _ Hj) as [_ E]. congruence.
    + rewrite Hother in Hj by done. pose proof (Q1 _ _ Hj Ho Hpj). congruence.
  - intros w t' q i Hw Hpw Ho.
    destruct (Hold _ _ _ _ Hw Hpw) as [->|(_ & _ & Hw')].
    + destruct (Hnew _ Hw) as [Eo _]. rewrite Eo in Ho.
      pose proof (Q1 _ _ Hid Ho Hph). congruence.
    + by apply (Q2 w t' q i).
  - intros w t' q Hw Hpw. rewrite Hr.
    destruct (Hold _ _ _ _ Hw Hpw) as [->|(_ & _ & Hw')].
    + destruct (Hnew _ Hw) as [_ E]. congruence.
    + pose proof (Q4 _ _ _ Hw' Hpw). congruence.
  - intros w w' t1 t2 q q' H1 H2 Hp1 Hp2.
    destruct (Hold _ _ _ _ H1 Hp1) as [->|(_ & _ & H1')];
      destruct (Hold _ _ _ _ H2 Hp2) as [->|(_ & _ & H2')]; try done.
    + pose proof (Q4 _ _ _ H2' Hp2). congruence.
    + pose proof (Q4 _ _ _ H1' Hp1). congruence.
    + pose proof (Q4 _ _ _ H1' Hp1). congruence.
Qed.

(** The application makes a call. *)
Lemma Coordinated_axios_call o st :
  is_refresh o = false → Coordinated st → Coordinated (axios_call o st).
Proof.
  intros Ho (Q1 & Q2 & Q4 & Q5). rewrite axios_call_eq.
  set (new := mkTask o false (Authorization st) InFlight).
  assert (∀ j tj, (tasks st ++ [new])%list !! j = Some tj →
            tasks st !! j = Some tj ∨ tj = new) as Hold.
  { intros j tj [[_ ?]|[_ ?]]%lookup_snoc_Some; auto. }
  repeat split; simpl.
  - intros j tj Hj Hoj Hpj. apply Hold in Hj as [Hj| ->]; [by apply (Q1 j tj)|].
    simpl in Hoj. congruence.
  - intros w t q i Hw Hpw. apply Hold in Hw as [Hw| ->]; [by apply (Q2 w t q i)|done].
  - intros w t q Hw Hpw. apply Hold in Hw as [Hw| ->]; [by apply (Q4 w t q)|done].
  - intros w w' t1 t2 q q' H1 H2 Hp1 Hp2.
    apply Hold in H1 as [H1| ->]; [|done].
    apply Hold in H2 as [H2| ->]; [|done].
    by apply (Q5 w w' t1 t2 q q').
Qed.

Lemma Coordinated_finish id o s st t :
  Coordinated st → tasks st !! id = Some t → phase t = InFlight →
  tasks s = tasks st → refreshing s = refreshing st →
  Coordinated (finish id o s).
Proof.
  intros HC Hid Hph Et Er. apply (Coordinated_direct st _ id t); try done.
  - intros j Hj. rewrite lookup_finish_ne by done. by rewrite Et.
  - intros t'. erewrite lookup_finish_eq by (by rewrite Et). by intros [= <-].
Qed.

Lemma Coordinated_settle fuel p r st t :
  Coordinated (finish p (outcome_of r) st) → tasks st !! p = Some t →
  Coordinated (settle fuel p r st).
Proof.
  apply settle_preserves_settled.
  - intros tok w s tw q i _ HC Hset Hw Hph.
    set (s' := if i then set_refreshing None s else s).
    assert (tasks s' = tasks s) as Et by (subst s'; by destruct i).
    set (s2 := update_task w (set_config_authorization (Some (Bearer tok))) s').
    assert (tasks s2 !! w =
            Some (set_config_authorization (Some (Bearer tok)) tw)) as H2.
    { apply lookup_update_task_eq. by rewrite Et. }
    apply (Coordinated_leave s _ w tw q i); try done.
    + intros j Hj. rewrite lookup_send_ne by done. subst s2.
      rewrite lookup_update_task_ne by done. by rewrite Et.
    + intros t'. rewrite (lookup_send_eq _ _ _ H2). by intros [= <-].
    + rewrite refreshing_send. subst s2 s'. by destruct i.
  - intros e w s tw q i _ HC Hset Hw Hph Ho.
    set (s' := if i then set_refreshing None s else s).
    assert (tasks s' = tasks s) as Et by (subst s'; by destruct i).
    apply (Coordinated_leave s _ w tw q i); try done.
    + intros j Hj. rewrite lookup_finish_ne by done. simpl. by rewrite Et.
    + intros t'. erewrite lookup_finish_eq by (simpl; by rewrite Et).
      by intros [= <-].
    + simpl. subst s'. by destruct i.
  - intros e w s tw q i _ (_ & Q2 & _) Hset Hw Hph Ho.
    pose proof (Q2 _ _ _ _ Hw Hph Ho) as ->.
    by destruct (settled_apart _ _ _ _ _ _ Hset Hw Hph).
Qed.

Lemma Coordinated_rejected fuel id e s st t :
  Coordinated st → tasks st !! id = Some t → phase t = InFlight →
  tasks s = tasks st → refreshing s = refreshing st →
  Coordinated (rejected (settle fuel) id e s).
Proof.
  intros HC Hid Hph Et Er. unfold rejected. rewrite Et, Hid.
  destruct (origin t) eqn:Eo; try by apply (Coordinated_finish _ _ _ st t).
  apply (Coordinated_settle _ _ _ _ t); [|simpl; by rewrite Et].
  by apply (Coordinated_finish _ _ _ st t).
Qed.

Lemma Coordinated_fulfilled fuel id r st t :
  Coordinated st → tasks st !! id = Some t → phase t = InFlight →
  Coordinated (fulfilled fuel id r st).
Proof.
  intros HC Hid Hph. unfold fulfilled. rewrite Hid.
  destruct (origin t) eqn:Eo.
  - by apply (Coordinated_finish _ _ _ st t).
  - unfold login_response.
    destruct (resp_data r) as [|[?|] [?|] ?];
      try by apply (Coordinated_finish _ _ _ st t).
    destruct (negb _ || negb _); by apply (Coordinated_finish _ _ _ st t).
  - unfold refresh_response.
    assert (∀ s y, tasks s = tasks st → refreshing s = refreshing st →
              Coordinated (settle fuel id y s)) as Hs.
    { intros s y Et Er. apply (Coordinated_settle _ _ _ _ t); [|by rewrite Et].
      by apply (Coordinated_finish _ _ _ st t). }
    destruct (resp_data r) as [|[a|] ? ?]; [by apply Hs| |by apply Hs].
    destruct (truthy (Some a)); by apply Hs.
Qed.

Lemma Coordinated_refreshAccessToken fuel id st t :
  Coordinated st → tasks st !! id = Some t → phase t = InFlight →
  Coordinated (refreshAccessToken fuel id st).
Proof.
  intros HC Hid Hph. unfold refreshAccessToken.
  assert (∀ e s, tasks s = tasks st → refreshing s = refreshing st →
            Coordinated (rejected (settle fuel) id e (logout s))) as Hrej.
  { intros e s Et Er. by apply (Coordinated_rejected _ _ _ _ st t). }
  destruct (refreshing st) as [p|] eqn:Hrf.
  - destruct (tasks st !! p ≫= _) as [r|] eqn:Hset.
    + assert (is_refresh (origin t) = false) as Ho.
      { destruct (is_refresh (origin t)) eqn:E; [|done].
        destruct HC as (Q1 & _). pose proof (Q1 _ _ Hid E Hph) as E'.
        rewrite Hrf in E'. injection E' as ->.
        rewrite Hid in Hset. simpl in Hset. by rewrite Hph in Hset. }
      unfold resume. destruct r as [tok|e]; [|by apply Hrej].
      set (s2 := update_task id (set_config_authorization (Some (Bearer tok))) st).
      assert (tasks s2 !! id =
              Some (set_config_authorization (Some (Bearer tok)) t)) as H2
        by by apply lookup_update_task_eq.
      apply (Coordinated_direct st _ id t); try done.
      * intros j Hj. rewrite lookup_send_ne by done.
        by apply lookup_update_task_ne.
      * intros t'. rewrite (lookup_send_eq _ _ _ H2). by intros [= <-].
      * by rewrite refreshing_send.
    + apply (Coordinated_join st _ id t p); try done.
      * intros j Hj. by apply lookup_update_task_ne.
      * intros t'. rewrite (lookup_update_task_eq _ _ _ _ Hid). by intros [= <-].
  - assert (is_refresh (origin t) = false) as Ho.
    { destruct (is_refresh (origin t)) eqn:E; [|done].
      destruct HC as (Q1 & _). pose proof (Q1 _ _ Hid E Hph). congruence. }
    assert (∀ e, Coordinated (resume (settle fuel) id true (Rejected e) st))
      as Hres.
    { intros e. unfold resume. by apply Hrej. }
    destruct (refreshToken st) as [tok|]; [|apply Hres].
    destruct (truthy (Some tok)); [|apply Hres].
    pose proof (lookup_lt_Some _ _ _ Hid) as Hlt.
    apply (Coordinated_start st _ id t (length (tasks st))); try done.
    + by apply lookup_ge_None_2.
    + intros j Hj Hjp. rewrite lookup_update_task_ne by done.
      rewrite axios_call_eq. simpl.
      destruct (decide (j < length (tasks st))).
      * by rewrite lookup_app_l.
      * rewrite !lookup_ge_None_2; [done|lia|]. rewrite length_app. simpl. lia.
    + intros t'. erewrite lookup_update_task_eq.
      2: { rewrite axios_call_eq. simpl. by rewrite lookup_app_l. }
      by intros [= <-].
    + intros t'. rewrite lookup_update_task_ne by lia.
      rewrite axios_call_eq. simpl.
      rewrite lookup_app_r, Nat.sub_diag by done. by intros [= <-].
Qed.

Lemma Coordinated_deliver id n st : Coordinated st → Coordinated (deliver id n st).
Proof.
  intros HC. unfold deliver.
  destruct (tasks st !! id) as [t|] eqn:Hid; [|done].
  destruct (phase t) eqn:Hph; try done.
  assert (∀ e, Coordinated (interceptor (length (tasks st)) id e st)) as Hi.
  { intros e. unfold interceptor. rewrite Hid.
    destruct (status_is_not_401 e || _retry t);
      [by apply (Coordinated_rejected _ _ _ _ st t)|].
    apply (Coordinated_refreshAccessToken _ _ _ (set_retry true t));
      [|by apply lookup_update_task_eq|done].
    apply (Coordinated_direct st _ id t); try done.
    - intros j Hj. by apply lookup_update_task_ne.
    - intros t'. rewrite (lookup_update_task_eq _ _ _ _ Hid). intros [= <-].
      simpl. by rewrite Hph. }
  destruct n as [r|msg]; [|apply Hi].
  destruct (validateStatus (resp_status r)); [|apply Hi].
  by apply (Coordinated_fulfilled _ _ _ _ t).
Qed.

Lemma Coordinated_constructor storage : Coordinated (constructor storage).
Proof.
  assert (∀ st, tasks st = [] → Coordinated st) as H.
  { intros st Et. unfold Coordinated. rewrite Et. repeat split; by intros. }
  apply H. unfold constructor. simpl.
  destruct (storage !! "accessToken") as [a|]; [|done].
  by destruct (negb (String.eqb a "")).
Qed.

Lemma Coordinated_reachable st : reachable st → Coordinated st.
Proof.
  intros (storage & evs & ->).
  generalize (Coordinated_constructor storage).
  generalize (constructor storage). induction evs as [|ev evs IH]; [done|].
  intros s HC. apply IH. destruct ev; simpl.
  - by apply Coordinated_axios_call.
  - by apply Coordinated_axios_call.
  - by apply (Coordinated_same s).
  - by apply Coordinated_deliver.
Qed.

(** In every state the process can reach, at most one refresh request is on
    the wire, and it is the one [refreshing] points to. *)
Theorem single_flight st id1 id2 t1 t2 :
  reachable st →
  tasks st !! id1 = Some t1 → is_refresh (origin t1) = true →
  phase t1 = InFlight →
  tasks st !! id2 = Some t2 → is_refresh (origin t2) = true →
  phase t2 = InFlight →
  id1 = id2 ∧ refreshing st = Some id1.
Proof.
  intros Hr H1 Ho1 Hp1 H2 Ho2 Hp2.
  destruct (Coordinated_reachable _ Hr) as (Q1 & _).
  pose proof (Q1 _ _ H1 Ho1 Hp1) as E1. pose proof (Q1 _ _ H2 Ho2 Hp2) as E2.
  split; [congruence|done].
Qed.

(** * A refresh that fails *)

Lemma wake_rejected rec p e s w :
  plain_waiters p s →
  let s' := wake rec p (Rejected e) s w in
  (∀ j, j ≠ w → tasks s' !! j = tasks s !! j) ∧
  match tasks s !! w with
  | Some t =>
      tasks s' !! w = Some (if awaits p t then abandoned e t else t)
  | None => tasks s' !! w = None
  end.
Proof.
  intros Hplain. unfold wake.
  destruct (tasks s !! w) as [t|] eqn:Ew; [|done].
  pose proof (Hplain w t Ew) as Ho. unfold awaits in *.
  destruct (phase t) as [|q i|] eqn:Eph; try done.
  destruct (decide (q = p)) as [->|Hne].
  2: { by rewrite bool_decide_eq_false_2. }
  rewrite bool_decide_eq_true_2 in * by done. specialize (Ho eq_refl).
  unfold resume, rejected.
  set (s1 := if i then set_refreshing None s else s).
  assert (tasks s1 = tasks s) as Et by (subst s1; by destruct i).
  simpl. rewrite Et, Ew.
  assert (tasks (logout s1) !! w = Some t) as El by (simpl; by rewrite Et).
  destruct (origin t); try done.
  - split; [intros j Hj; rewrite lookup_finish_ne by done; simpl; by rewrite Et|].
    by rewrite (lookup_finish_eq _ _ _ _ El).
  - split; [intros j Hj; rewrite lookup_finish_ne by done; simpl; by rewrite Et|].
    by rewrite (lookup_finish_eq _ _ _ _ El).
Qed.

Lemma plain_waiters_wake rec p e s w :
  plain_waiters p s → plain_waiters p (wake rec p (Rejected e) s w).
Proof.
  intros Hplain.
  destruct (wake_rejected rec p e s w Hplain) as [Hother Hat].
  intros j t Hj Haw. destruct (decide (j = w)) as [->|Hne].
  - destruct (tasks s !! w) as [tw|] eqn:Ew; [|congruence].
    rewrite Hat in Hj. injection Hj as <-.
    destruct (awaits p tw) eqn:E; [done|]. by apply (Hplain w tw).
  - rewrite Hother in Hj by done. by apply (Hplain j t).
Qed.

Lemma wake_all_rejected rec p e l : ∀ s,
  NoDup l → plain_waiters p s →
  ∀ j t, tasks s !! j = Some t →
    tasks (foldl (wake rec p (Rejected e)) s l) !! j =
    Some (if bool_decide (j ∈ l) && awaits p t then abandoned e t else t).
Proof.
  induction l as [|w l IH]; intros s Hnd Hplain j t Hj; simpl; [done|].
  apply NoDup_cons in Hnd as [Hw Hnd].
  destruct (wake_rejected rec p e s w Hplain) as [Hother Hat].
  pose proof (plain_waiters_wake rec p e s w Hplain) as Hplain'.
  destruct (decide (j = w)) as [->|Hne].
  - rewrite Hj in Hat. rewrite (IH _ Hnd Hplain' _ _ Hat).
    rewrite (bool_decide_eq_false_2 _ Hw), bool_decide_eq_true_2 by by left.
    done.
  - rewrite <-Hother in Hj by done. rewrite (IH _ Hnd Hplain' _ _ Hj).
    replace (bool_decide (j ∈ w :: l)) with (bool_decide (j ∈ l)); [done|].
    apply bool_decide_ext. rewrite elem_of_cons.
    split; [by right|by intros [?|?]].
Qed.

(** In a state where no refresh request is parked behind [p], the depth
    bound of [settle] is never reached: one level does the whole work. *)
Lemma wake_all_rec_irrelevant rec1 rec2 p r l : ∀ s,
  plain_waiters p s →
  foldl (wake rec1 p r) s l = foldl (wake rec2 p r) s l.
Proof.
  induction l as [|w l IH]; intros s Hplain; simpl; [done|].
  assert (wake rec1 p r s w = wake rec2 p r s w) as E.
  { unfold wake. destruct (tasks s !! w) as [t|] eqn:Ew; [|done].
    pose proof (Hplain w t Ew) as Ho. unfold awaits in Ho.
    destruct (phase t) as [|q i|]; try done.
    destruct (decide (q = p)) as [->|]; [|done].
    rewrite bool_decide_eq_true_2 in Ho by done. specialize (Ho eq_refl).
    unfold resume. destruct r as [tok|e]; [done|].
    unfold rejected. simpl.
    replace (tasks (if i then set_refreshing None s else s)) with (tasks s)
      by by destruct i.
    rewrite Ew. by destruct (origin t). }
  rewrite E. apply IH. destruct r as [tok|e].
  - destruct (wake_fulfilled rec2 p tok s w) as [Hother Hat].
    intros j t Hj Haw. destruct (decide (j = w)) as [->|Hne].
    + destruct (tasks s !! w) as [tw|] eqn:Ew.
      * destruct (awaits p tw) eqn:Eaw; destruct Hat as [Hat _];
          rewrite Hat in Hj; injection Hj as <-; [done|by apply (Hplain w tw)].
      * destruct Hat as [Hat _]. congruence.
    + rewrite Hother in Hj by done. by apply (Hplain j t).
  - by apply plain_waiters_wake.
Qed.

Lemma settle_fuel_irrelevant f p r s :
  plain_waiters p (finish p (outcome_of r) s) →
  settle (S f) p r s = settle 1 p r s.
Proof. intros Hplain. simpl. by apply wake_all_rec_irrelevant. Qed.

(** While a refresh request is on the wire, only operations and [login] are
    parked behind it. *)
Lemma reachable_plain_waiters st p tp :
  reachable st → tasks st !! p = Some tp → phase tp = InFlight →
  plain_waiters p st.
Proof.
  intros Hr Hp Hph w t Hw Haw. unfold awaits in Haw.
  destruct (phase t) as [|q i|] eqn:Epw; try done.
  apply bool_decide_eq_true_1 in Haw as ->.
  destruct (is_refresh (origin t)) eqn:Eo; [|done].
  destruct (Coordinated_reachable _ Hr) as (_ & Q2 & _).
  pose proof (Q2 _ _ _ _ Hw Epw Eo) as ->. congruence.
Qed.

Lemma deliver_refresh_fail st p tp n :
  tasks st !! p = Some tp → is_refresh (origin tp) = true →
  phase tp = InFlight → refresh_fails tp n →
  deliver p n st =
  settle (length (tasks st)) p (Rejected (refresh_error n)) (logout st).
Proof.
  intros Hp Ho Hph Hn. unfold deliver. rewrite Hp, Hph.
  assert (∀ e, status_is_not_401 e || _retry tp = true →
            interceptor (length (tasks st)) p e st =
            settle (length (tasks st)) p (Rejected e) (logout st)) as Hi.
  { intros e He. unfold interceptor. rewrite Hp, He.
    unfold rejected. rewrite Hp. by destruct (origin tp). }
  destruct n as [r|msg]; simpl in *.
  - destruct Hn as [[Hv Hn]|[Hv Hn]]; rewrite Hv.
    + apply Hi. unfold status_is_not_401. simpl.
      destruct Hn as [Hn| ->]; [|by rewrite orb_true_r].
      apply orb_true_iff. left. apply negb_true_iff. by apply Z.eqb_neq.
    + unfold fulfilled. rewrite Hp. destruct (origin tp); try done.
      unfold refresh_response. destruct (resp_data r) as [|[a|] ? ?]; [done| |done].
      change (truthy (Some a) = false) in Hn. by rewrite Hn.
  - destruct Hn as [_|[]]. by apply Hi.
Qed.

Lemma Unauthenticated_logout st : Unauthenticated (logout st).
Proof.
  repeat split; simpl.
  - rewrite lookup_delete_ne by done. apply lookup_delete_eq.
  - apply lookup_delete_eq.
Qed.

Lemma Unauthenticated_same st st' :
  credentials st' = credentials st → Unauthenticated st → Unauthenticated st'.
Proof. unfold credentials, Unauthenticated. by intros [= -> -> -> ->]. Qed.

(** A call parked behind a refresh promise that is rejected. *)
Lemma parked_calls_abandoned st s p tp e w t i :
  reachable st → tasks st !! p = Some tp → phase tp = InFlight →
  tasks s = tasks st →
  tasks st !! w = Some t → phase t = AwaitRefresh p i →
  tasks (settle (length (tasks st)) p (Rejected e) s) !! w
  = Some (abandoned e t).
Proof.
  intros Hr Hp Hph Es Hw Hpw.
  pose proof (lookup_lt_Some _ _ _ Hp) as Hlt.
  destruct (length (tasks st)) as [|f] eqn:El; [lia|].
  set (s0 := finish p (outcome_of (Rejected e)) s).
  change (settle (S f) p (Rejected e) s) with
    (foldl (wake (settle f) p (Rejected e)) s0 (seq 0 (length (tasks s0)))).
  assert (w ≠ p) as Hne by (intros ->; congruence).
  assert (tasks s0 !! w = Some t) as H0.
  { subst s0. rewrite lookup_finish_ne by done. by rewrite Es. }
  assert (plain_waiters p s0) as Hplain.
  { intros j tj Hj Haw. destruct (decide (j = p)) as [->|Hjp].
    - subst s0. erewrite lookup_finish_eq in Hj by (by rewrite Es).
      by injection Hj as <-.
    - subst s0. rewrite lookup_finish_ne, Es in Hj by done.
      by apply (reachable_plain_waiters st p tp Hr Hp Hph j tj). }
  rewrite (wake_all_rejected _ _ _ _ _ (NoDup_seq _ _) Hplain _ _ H0).
  rewrite bool_decide_eq_true_2.
  - unfold awaits. rewrite Hpw. by rewrite bool_decide_eq_true_2.
  - apply elem_of_seq. apply lookup_lt_Some in H0. lia.
Qed.

(** When the refresh request gets no answer, an answer that is neither 2xx
    nor a first 401, or a 2xx answer without access token, then in that
    turn every credential is cleared,
    nothing is sent, and every call parked behind the refresh fails with
    the record built from the refresh error. *)
Theorem refresh_failure_logs_out st p tp n :
  reachable st → tasks st !! p = Some tp → is_refresh (origin tp) = true →
  phase tp = InFlight → refresh_fails tp n →
  Unauthenticated (step st (Deliver p n)) ∧
  wire (step st (Deliver p n)) = wire st ∧
  ∀ w t i, tasks st !! w = Some t → phase t = AwaitRefresh p i →
    tasks (step st (Deliver p n)) !! w = Some (abandoned (refresh_error n) t).
Proof.
  intros Hr Hp Ho Hph Hn. simpl.
  rewrite (deliver_refresh_fail _ _ _ _ Hp Ho Hph Hn).
  set (e := refresh_error n). split; [|split].
  - apply (settle_preserves Unauthenticated (Rejected e)) with (t := tp).
    + intros s. by apply Unauthenticated_same.
    + intros q s tq Hs _ _. by apply (Unauthenticated_same s).
    + by intros tok w s tw q i [=].
    + intros e' s _ _. apply Unauthenticated_logout.
    + intros e' w s tw _ Hs _ _. by apply (Unauthenticated_same s).
    + apply Unauthenticated_logout.
    + done.
    + done.
  - by apply (settle_preserves (λ s, wire s = wire st) (Rejected e))
      with (t := tp).
  - intros w t i Hw Hpw.
    by apply (parked_calls_abandoned st _ p tp e w t i).
Qed.

(** * What a failed operation hands to its caller *)




(** The first unauthorized answer, with no refresh under way and a refresh
    token at hand: one refresh request is sent and the call is parked
    behind it, marked as retried ([_retry]) and otherwise as it was. *)
Theorem first_unauthorized_starts_refresh st id t r tok :
  tasks st !! id = Some t → phase t = InFlight → _retry t = false →
  resp_status r = 401%Z → refreshing st = None →
  refreshToken st = Some tok → truthy (Some tok) = true →
  wire (step st (Deliver id (Answered r)))
  = (wire st ++ [mkSent (length (tasks st)) (FromRefresh tok)
                        (Authorization st)])%list ∧
  refreshing (step st (Deliver id (Answered r))) = Some (length (tasks st)) ∧
  phase_of (step st (Deliver id (Answered r))) (length (tasks st))
  = Some InFlight ∧
  phase_of (step st (Deliver id (Answered r))) id
  = Some (AwaitRefresh (length (tasks st)) true) ∧
  tasks (step st (Deliver id (Answered r))) !! id
  = Some (set_phase (AwaitRefresh (length (tasks st)) true) (set_retry true t)).
Proof.
  intros Hid Hph Hre Hs Hrf Htok Htr.
  change (step st (Deliver id (Answered r))) with (deliver id (Answered r) st).
  unfold deliver. rewrite Hid, Hph, Hs.
  change (validateStatus 401) with false. cbv iota.
  unfold interceptor. rewrite Hid, Hre.
  replace (status_is_not_401 (status_error r)) with false
    by (unfold status_is_not_401; simpl; by rewrite Hs).
  cbv iota beta delta [orb]. unfold refreshAccessToken.
  change (refreshing (update_task id (set_retry true) st)) with (refreshing st).
  change (refreshToken (update_task id (set_retry true) st))
    with (refreshToken st).
  rewrite Hrf, Htok, Htr.
  rewrite axios_call_eq. simpl. rewrite length_alter.
  pose proof (lookup_lt_Some _ _ _ Hid) as Hlt.
  split; [done|]. split; [done|]. unfold phase_of. simpl. split; [|split].
  - rewrite list_lookup_alter_ne by lia.
    by rewrite lookup_app_r, length_alter, Nat.sub_diag by (by rewrite length_alter).
  - rewrite list_lookup_alter_eq, lookup_app_l by (by rewrite length_alter).
    by rewrite list_lookup_alter_eq, Hid.
  - rewrite list_lookup_alter_eq, lookup_app_l by (by rewrite length_alter).
    by rewrite list_lookup_alter_eq, Hid.
Qed.

Lemma deliver_unauthorized_joins st id t r p tp :
  tasks st !! id = Some t → phase t = InFlight → _retry t = false →
  resp_status r = 401%Z → refreshing st = Some p →
  tasks st !! p = Some tp → settlement_of (phase tp) = None →
  deliver id (Answered r) st
  = update_task id (set_phase (AwaitRefresh p false))
      (update_task id (set_retry true) st).
Proof.
  intros Hid Hph Hre Hs Hrf Hp Hpp. unfold deliver.
  rewrite Hid, Hph, Hs. simpl. unfold interceptor. rewrite Hid, Hre.
  unfold status_is_not_401. simpl. rewrite Hs. simpl.
  unfold refreshAccessToken. simpl. rewrite Hrf.
  assert (alter (set_retry true) id (tasks st) !! p
          ≫= (λ t0, settlement_of (phase t0)) = None) as ->; [|done].
  rewrite list_lookup_alter. destruct (decide (id = p)) as [->|].
  - rewrite Hp. simpl. by rewrite Hpp.
  - rewrite Hp. simpl. by rewrite Hpp.
Qed.

(** A later unauthorized answer, while that refresh request is still on the
    wire: nothing is sent, no call is created, and the call is parked
    behind the same promise. *)
Theorem later_unauthorized_joins_refresh st id t r p tp :
  tasks st !! id = Some t → phase t = InFlight → _retry t = false →
  resp_status r = 401%Z → refreshing st = Some p →
  tasks st !! p = Some tp → phase tp = InFlight →
  wire (step st (Deliver id (Answered r))) = wire st ∧
  length (tasks (step st (Deliver id (Answered r)))) = length (tasks st) ∧
  refreshing (step st (Deliver id (Answered r))) = Some p ∧
  phase_of (step st (Deliver id (Answered r))) id
  = Some (AwaitRefresh p false).
Proof.
  intros Hid Hph Hre Hs Hrf Hp Hpp. simpl. unfold deliver.
  rewrite Hid, Hph, Hs. simpl. unfold interceptor. rewrite Hid, Hre.
  unfold status_is_not_401. simpl. rewrite Hs. simpl.
  unfold refreshAccessToken. simpl. rewrite Hrf.
  assert (alter (set_retry true) id (tasks st) !! p
          ≫= (λ t0, settlement_of (phase t0)) = None) as ->.
  { rewrite list_lookup_alter. destruct (decide (id = p)) as [->|].
    - rewrite Hp. simpl. by rewrite Hpp.
    - rewrite Hp. simpl. by rewrite Hpp. }
  simpl. rewrite !length_alter. repeat split; try done.
  unfold phase_of. simpl. by rewrite !list_lookup_alter_eq, Hid.
Qed.

(** A request that has been retried is settled by whatever comes back. *)
Theorem retried_request_settles st id t n :
  tasks st !! id = Some t → phase t = InFlight → _retry t = true →
  is_refresh (origin t) = false →
  ∃ o, phase_of (step st (Deliver id n)) id = Some (Settled o).
Proof.
  intros Hid Hph Hre Ho. simpl.
  assert (∀ o s, tasks s = tasks st →
            phase_of (finish id o s) id = Some (Settled o)) as Hfin.
  { intros o s Es. unfold phase_of. erewrite lookup_finish_eq; [done|].
    by rewrite Es. }
  destruct n as [r|msg].
  2: { rewrite (deliver_failure _ _ _ _ Hid Hph Ho) by done. eauto. }
  destruct (validateStatus (resp_status r)) eqn:Hv.
  2: { rewrite (deliver_failure _ _ _ _ Hid Hph Ho) by (split; auto). eauto. }
  unfold deliver. rewrite Hid, Hph, Hv. unfold fulfilled. rewrite Hid.
  destruct (origin t); try done; [eauto|].
  unfold login_response.
  destruct (resp_data r) as [|[?|] [?|] ?]; eauto.
  destruct (negb _ || negb _); eauto.
Qed.

(** * The two scenarios *)

(** Three concurrent operations with an expired access token: one refresh
    request; it succeeds with ["T2"]; all three are sent again with
    ["T2"], return their results, and the session holds ["T2"]. *)
Example three_requests_one_refresh :
  length (refresh_calls (wire three_parked)) = 1 ∧
  refreshing three_parked = Some 3 ∧
  sent_for 0 (wire three_done)
  = [mkSent 0 (FromOperation getNodes) (Some "Bearer T1");
     mkSent 0 (FromOperation getNodes) (Some "Bearer T2")] ∧
  phase_of three_done 0 = Some (Settled (Returned (mkData None None ""))) ∧
  phase_of three_done 1 = Some (Settled (Returned (mkData None None ""))) ∧
  phase_of three_done 2 = Some (Settled (Returned (mkData None None ""))) ∧
  length (wire three_done) = 7 ∧
  accessToken three_done = Some "T2" ∧ refreshToken three_done = Some "R1" ∧
  Authorization three_done = Some "Bearer T2" ∧ refreshing three_done = None.
Proof. do 10 (split; [vm_compute; reflexivity|]). vm_compute. reflexivity. Qed.

(** Same setup, the refresh token is refused with status 400: the three
    operations fail with the refresh error, nothing is sent again, and no
    credential is left. *)
Example three_requests_refresh_refused :
  phase_of three_refused 0
  = Some (Settled (Threw (ThrownAPIError
       (mkAPIError "Request failed with status code 400" 400
                   (Some (mkData None None "")))))) ∧
  phase_of three_refused 1 = phase_of three_refused 0 ∧
  phase_of three_refused 2 = phase_of three_refused 0 ∧
  wire three_refused = wire three_parked ∧
  refreshing three_refused = None ∧
  accessToken three_refused = None ∧ refreshToken three_refused = None ∧
  Authorization three_refused = None ∧
  localStorage three_refused !! "accessToken" = None ∧
  localStorage three_refused !! "refreshToken" = None.
Proof. do 9 (split; [vm_compute; reflexivity|]). vm_compute. reflexivity. Qed.

(** * The depth bound of [settle] *)

(** In a reachable state where the refresh request [p] is on the wire, one
    level of [settle] wakes every parked call; the bound [deliver] passes
    (the number of calls, at least one) is never what stops the cascade. *)
Theorem settle_depth_one st p tp f r s :
  reachable st → tasks st !! p = Some tp → phase tp = InFlight →
  tasks s = tasks st →
  settle (S f) p r s = settle 1 p r s.
Proof.
  intros Hr Hp Hph Et. apply settle_fuel_irrelevant.
  intros w t Hw Haw. destruct (decide (w = p)) as [->|Hne].
  - erewrite lookup_finish_eq in Hw by (by rewrite Et).
    injection Hw as <-. done.
  - rewrite lookup_finish_ne in Hw by done. rewrite Et in Hw.
    by apply (reachable_plain_waiters st p tp Hr Hp Hph w t).
Qed.

(** * Ways a call can end *)

Lemma Outcomes_same st st' : tasks st' = tasks st → Outcomes st → Outcomes st'.
Proof. unfold Outcomes. by intros ->. Qed.

Lemma Outcomes_update w f st :
  (∀ t, origin (f t) = origin t) →
  (∀ t o, phase (f t) = Settled o → phase t = Settled o) →
  Outcomes st → Outcomes (update_task w f st).
Proof.
  intros Ho Hp HO id t o. rewrite lookup_update_task.
  destruct (decide (w = id)) as [->|Hne]; [|apply HO].
  destruct (tasks st !! id) as [t0|] eqn:E; [|done].
  intros [= <-] Hph. rewrite Ho. apply (HO id t0 o E). by apply Hp.
Qed.

Lemma Outcomes_send w st : Outcomes st → Outcomes (send w st).
Proof.
  intros HO. unfold send. destruct (tasks st !! w) as [t|]; [|done].
  apply (Outcomes_same (update_task w
           (λ u, set_phase InFlight
                   (set_config_authorization (header_for t st) u)) st));
    [done|].
  by apply Outcomes_update.
Qed.

Lemma Outcomes_finish id o st t :
  Outcomes st → tasks st !! id = Some t → possible_outcome (origin t) o →
  Outcomes (finish id o st).
Proof.
  intros HO Hid Ho j tj oj. destruct (decide (id = j)) as [<-|Hne].
  - rewrite (lookup_finish_eq _ _ _ _ Hid). by intros [= <-] [= <-].
  - rewrite lookup_finish_ne by done. apply HO.
Qed.

Lemma Outcomes_axios_call o st : Outcomes st → Outcomes (axios_call o st).
Proof.
  intros HO. rewrite axios_call_eq. intros id t out. simpl.
  intros [[_ Hid]|[_ <-]]%lookup_snoc_Some; [apply (HO _ _ _ Hid)|done].
Qed.

Lemma possible_handleError o e :
  is_refresh o = false →
  possible_outcome o (Threw (ThrownAPIError (handleError e))).
Proof. destruct o; simpl; intros H; try done; eauto. Qed.

Lemma possible_settlement o r :
  is_refresh o = true → sound_settlement r →
  possible_outcome o (outcome_of r).
Proof.
  destruct o; try done. intros _ Hr. destruct r as [tok|e]; simpl; eauto.
Qed.

Lemma Outcomes_settle fuel p r st t :
  sound_settlement r →
  Outcomes st → tasks st !! p = Some t → is_refresh (origin t) = true →
  Outcomes (settle fuel p r st).
Proof.
  intros Hr. apply settle_preserves.
  - intros s. by apply Outcomes_same.
  - intros q s tq HO Hq Ho. apply (Outcomes_finish _ _ _ tq); try done.
    by apply possible_settlement.
  - intros tok w s tw q i _ HO _ _. apply Outcomes_send.
    by apply Outcomes_update.
  - intros e s _. by apply Outcomes_same.
  - intros e w s tw _ HO Hw Ho. apply (Outcomes_finish _ _ _ tw); try done.
    by apply possible_handleError.
Qed.

Lemma Outcomes_rejected fuel id e st t :
  Outcomes st → tasks st !! id = Some t →
  Outcomes (rejected (settle fuel) id e st).
Proof.
  intros HO Hid. unfold rejected. rewrite Hid.
  destruct (origin t) eqn:Eo.
  - apply (Outcomes_finish _ _ _ t); try done. rewrite Eo. simpl. eauto.
  - apply (Outcomes_finish _ _ _ t); try done. rewrite Eo. simpl. eauto.
  - apply (Outcomes_settle _ _ _ _ t);
      [by intros tok|by apply (Outcomes_same st)|done|by rewrite Eo].
Qed.

Lemma Outcomes_resume fuel id i r st t :
  Outcomes st → tasks st !! id = Some t →
  Outcomes (resume (settle fuel) id i r st).
Proof.
  intros HO Hid. unfold resume.
  set (s' := if i then set_refreshing None st else st).
  assert (tasks s' = tasks st) as Et by (subst s'; by destruct i).
  assert (Outcomes s') as HO' by by apply (Outcomes_same st).
  destruct r as [tok|e].
  - apply Outcomes_send. by apply Outcomes_update.
  - apply (Outcomes_rejected _ _ _ _ t); [by apply (Outcomes_same s')|].
    simpl. by rewrite Et.
Qed.

Lemma Outcomes_fulfilled fuel id r st t :
  Outcomes st → tasks st !! id = Some t → Outcomes (fulfilled fuel id r st).
Proof.
  intros HO Hid. unfold fulfilled. rewrite Hid.
  destruct (origin t) eqn:Eo.
  - apply (Outcomes_finish _ _ _ t); try done. rewrite Eo. simpl.
    destruct (returns_void op); eauto.
  - unfold login_response.
    assert (∀ s, tasks s = tasks st →
              Outcomes (finish id (Threw (ThrownError
                          (Error "Invalid token response"))) s)) as Hraw.
    { intros s Es. apply (Outcomes_finish _ _ _ t);
        [by apply (Outcomes_same st)|by rewrite Es|]. rewrite Eo. simpl. eauto. }
    destruct (resp_data r) as [|[a|] [f|] ?]; try by apply Hraw.
    { apply (Outcomes_finish _ _ _ t); [done|done|].
      rewrite Eo. simpl. eauto. }
    destruct (negb _ || negb _); [by apply Hraw|].
    apply (Outcomes_finish _ _ _ t); [by apply (Outcomes_same st)|done|].
    rewrite Eo. simpl. eauto.
  - unfold refresh_response.
    assert (∀ s x, sound_settlement x → tasks s = tasks st →
              Outcomes (settle fuel id x s)) as Hs.
    { intros s x Hx Es. apply (Outcomes_settle _ _ _ _ t);
        [done|by apply (Outcomes_same st)|by rewrite Es|by rewrite Eo]. }
    destruct (resp_data r) as [|[a|] ? ?]; [by apply Hs| |by apply Hs].
    destruct (truthy (Some a)) eqn:Ea; apply Hs; try done.
    by intros tok [= <-].
Qed.

Lemma Outcomes_deliver id n st : Outcomes st → Outcomes (deliver id n st).
Proof.
  intros HO. unfold deliver.
  destruct (tasks st !! id) as [t|] eqn:Hid; [|done].
  destruct (phase t) eqn:Hph; try done.
  assert (∀ e, Outcomes (interceptor (length (tasks st)) id e st)) as Hi.
  { intros e. unfold interceptor. rewrite Hid.
    destruct (status_is_not_401 e || _retry t);
      [by apply (Outcomes_rejected _ _ _ _ t)|].
    set (s1 := update_task id (set_retry true) st).
    assert (Outcomes s1) as H1 by by apply Outcomes_update.
    assert (tasks s1 !! id = Some (set_retry true t)) as Hid1
      by by apply lookup_update_task_eq.
    unfold refreshAccessToken.
    destruct (refreshing s1) as [q|].
    - destruct (tasks s1 !! q ≫= _) as [r|].
      + by apply (Outcomes_resume _ _ _ _ _ (set_retry true t)).
      + by apply Outcomes_update.
    - destruct (refreshToken s1) as [tok|];
        [destruct (truthy (Some tok))|];
        try by apply (Outcomes_resume _ _ _ _ _ (set_retry true t)).
      apply Outcomes_update; [done|done|].
      apply (Outcomes_same (axios_call (FromRefresh tok) s1)); [done|].
      by apply Outcomes_axios_call. }
  destruct n as [r|msg]; [|apply Hi].
  destruct (validateStatus (resp_status r)); [|apply Hi].
  by apply (Outcomes_fulfilled _ _ _ _ t).
Qed.

Lemma Outcomes_reachable st : reachable st → Outcomes st.
Proof.
  intros (storage & evs & ->).
  assert (Outcomes (constructor storage)) as H0.
  { intros id t o. unfold constructor. simpl.
    destruct (storage !! "accessToken") as [a|]; [|done].
    by destruct (negb (String.eqb a "")). }
  revert H0. generalize (constructor storage).
  induction evs as [|ev evs IH]; [done|].
  intros s HO. apply IH. destruct ev; simpl.
  - by apply Outcomes_axios_call.
  - by apply Outcomes_axios_call.
  - by apply (Outcomes_same s).
  - by apply Outcomes_deliver.
Qed.

(** Whatever happens, a call that has ended has ended in one of the ways
    its code allows: an operation with the response body (nothing for the
    [delete...] operations) or the record of [handleError]; [login] with
    nothing, that record, its own ["Invalid token response"], or the
    [TypeError] of destructuring a [null] body; [doRefreshToken] with a
    non-empty token or an error. *)
Theorem calls_end_as_coded st id t o :
  reachable st → tasks st !! id = Some t → phase t = Settled o →
  possible_outcome (origin t) o.
Proof. intros Hr. apply (Outcomes_reachable _ Hr). Qed.

Lemma calls_end_as_coded_witness :
  possible_outcome (FromLogin "user" "wrong")
    (Threw (ThrownAPIError (mkAPIError "Network Error" 500 None))).
Proof.
  apply (calls_end_as_coded login_rejected 0
           (mkTask (FromLogin "user" "wrong") true (Some "Bearer T1")
              (Settled (Threw (ThrownAPIError
                                 (mkAPIError "Network Error" 500 None)))))).
  - exists (<["refreshToken" := "R1"]> (<["accessToken" := "T1"]> ∅)),
      [Login "user" "wrong"; Deliver 0 unauthorized;
       Deliver 1 (NoAnswer "Network Error")]. vm_compute. reflexivity.
  - vm_compute. reflexivity.
  - reflexivity.
Defined.

(** * The login form *)

(** When [login] has ended, the form either shows the logged-in panel
    without error, or stays as it was with one of three messages: ["Login
    failed"] for every failure that went through [handleError] (so the
    reason given by the backend is never shown), the ["Invalid token
    response"] of [login], or, for a 2xx answer whose body is [null], the
    message of the [TypeError] the destructuring throws. *)
Theorem login_form_message st id t o f :
  reachable st → tasks st !! id = Some t → is_login (origin t) = true →
  phase t = Settled o →
  (o = ReturnedVoid ∧
   LoginForm.isLoggedIn (LoginForm.handleSubmit_settled o f) = true ∧
   LoginForm.error (LoginForm.handleSubmit_settled o f) = None) ∨
  (LoginForm.isLoggedIn (LoginForm.handleSubmit_settled o f)
   = LoginForm.isLoggedIn f ∧
   (LoginForm.error (LoginForm.handleSubmit_settled o f) = Some "Login failed" ∨
    LoginForm.error (LoginForm.handleSubmit_settled o f)
    = Some "Invalid token response" ∨
    LoginForm.error (LoginForm.handleSubmit_settled o f)
    = Some (err_message cannot_destructure_null))).
Proof.
  intros Hr Hid Ho Hph.
  pose proof (Outcomes_reachable _ Hr _ _ _ Hid Hph) as Hp.
  destruct (origin t); try done. simpl in Hp.
  destruct Hp as [->|[->|[->|[e ->]]]]; simpl; auto.
Qed.

Lemma login_form_message_witness :
  LoginForm.isLoggedIn
    (LoginForm.handleSubmit_settled
       (Threw (ThrownAPIError (mkAPIError "Network Error" 500 None)))
       (LoginForm.mk "user" "wrong" None false)) = false ∧
  LoginForm.error
    (LoginForm.handleSubmit_settled
       (Threw (ThrownAPIError (mkAPIError "Network Error" 500 None)))
       (LoginForm.mk "user" "wrong" None false)) = Some "Login failed".
Proof.
  destruct (login_form_message login_rejected 0
              (mkTask (FromLogin "user" "wrong") true (Some "Bearer T1")
                 (Settled (Threw (ThrownAPIError
                                    (mkAPIError "Network Error" 500 None)))))
              (Threw (ThrownAPIError (mkAPIError "Network Error" 500 None)))
              (LoginForm.mk "user" "wrong" None false))
    as [(H & _)|(H1 & [H2|[H2|H2]])].
  - exists (<["refreshToken" := "R1"]> (<["accessToken" := "T1"]> ∅)),
      [Login "user" "wrong"; Deliver 0 unauthorized;
       Deliver 1 (NoAnswer "Network Error")]. vm_compute. reflexivity.
  - vm_compute. reflexivity.
  - reflexivity.
  - reflexivity.
  - discriminate H.
  - split; [exact H1|exact H2].
  - discriminate H2.
  - discriminate H2.
Defined.

(** * The service with a single token *)

Lemma V1_constructor_spec storage :
  V1.token (V1.constructor storage) = storage !! "authToken" ∧
  V1.localStorage (V1.constructor storage) = storage ∧
  V1.Authorization (V1.constructor storage)
  = (if truthy (storage !! "authToken")
     then Bearer <$> storage !! "authToken" else None).
Proof.
  unfold V1.constructor. simpl.
  destruct (storage !! "authToken") as [t|]; [|done]. simpl.
  by destruct (negb (String.eqb t "")).
Qed.

(** A [login] that returns has stored the token it returns under
    ["authToken"] and in the default header, and a process started later
    over the same storage has the token and sends it in the header. *)
Theorem V1_login_round_trip n st t :
  (V1.login n st).2 = ReturnedToken t →
  V1.token (V1.login n st).1 = Some t ∧
  V1.localStorage (V1.login n st).1 !! "authToken" = Some t ∧
  V1.Authorization (V1.login n st).1 = Some (Bearer t) ∧
  V1.token (V1.restart (V1.login n st).1) = Some t ∧
  V1.Authorization (V1.restart (V1.login n st).1) = Some (Bearer t).
Proof.
  unfold V1.login. destruct (V1.axios_settle n) as [e|r]; [done|].
  destruct (resp_data r) as [|[a|] ? ?]; [done| |done].
  destruct (truthy (Some a)) eqn:Ea; [|done]. cbn [fst snd]. intros [= ->].
  split; [done|]. split; [apply lookup_insert_eq|]. split; [done|].
  unfold V1.restart.
  destruct (V1_constructor_spec
              (V1.localStorage
                 (V1.setAuthHeader t
                    (V1.mkState (Some t)
                       (<["authToken" := t]> (V1.localStorage st))
                       (V1.Authorization st))))) as (-> & _ & ->).
  cbn [V1.localStorage V1.setAuthHeader].
  rewrite lookup_insert_eq. by rewrite Ea.
Qed.

Lemma V1_login_round_trip_witness :
  V1.token (V1.login (answer 200 (Some "test-token") None)
                     (V1.constructor ∅)).1 = Some "test-token" ∧
  V1.localStorage (V1.login (answer 200 (Some "test-token") None)
                            (V1.constructor ∅)).1 !! "authToken"
  = Some "test-token" ∧
  V1.Authorization (V1.login (answer 200 (Some "test-token") None)
                             (V1.constructor ∅)).1
  = Some (Bearer "test-token") ∧
  V1.token (V1.restart (V1.login (answer 200 (Some "test-token") None)
                                 (V1.constructor ∅)).1) = Some "test-token" ∧
  V1.Authorization (V1.restart (V1.login (answer 200 (Some "test-token") None)
                                         (V1.constructor ∅)).1)
  = Some (Bearer "test-token").
Proof.
  apply (V1_login_round_trip (answer 200 (Some "test-token") None)
           (V1.constructor ∅) "test-token").
  reflexivity.
Defined.

(** A [login] that throws, for whatever reason (no answer, any status
    outside 2xx, 401 included, or a body without access token), has left
    the token, the storage and the default header untouched. *)
Theorem V1_login_failure_changes_nothing n st x :
  (V1.login n st).2 = Threw x → (V1.login n st).1 = st.
Proof.
  unfold V1.login. destruct (V1.axios_settle n) as [e|r]; [done|].
  destruct (resp_data r) as [|[a|] ? ?]; [done| |done].
  by destruct (truthy (Some a)).
Qed.

Lemma V1_login_failure_changes_nothing_witness :
  (V1.login unauthorized (V1.constructor (<["authToken" := "T1"]> ∅))).1
  = V1.constructor (<["authToken" := "T1"]> ∅).
Proof.
  apply (V1_login_failure_changes_nothing unauthorized _
           (ThrownAPIError (mkAPIError "Request failed with status code 401"
                                       401 (Some (mkData None None ""))))).
  reflexivity.
Defined.

(** [logout] undoes [login] for good: whatever the state, after [logout]
    there is no token and no header, and a process started later over the
    same storage has none either. *)
Theorem V1_logout_clears st :
  V1.token (V1.logout st) = None ∧
  V1.Authorization (V1.logout st) = None ∧
  V1.localStorage (V1.logout st) !! "authToken" = None ∧
  V1.token (V1.restart (V1.logout st)) = None ∧
  V1.Authorization (V1.restart (V1.logout st)) = None.
Proof.
  unfold V1.restart.
  destruct (V1_constructor_spec (V1.localStorage (V1.logout st)))
    as (-> & _ & ->).
  simpl. rewrite lookup_delete_eq. done.
Qed.

(** Without interceptor every failure of an operation reaches its caller
    as the record of the request's own failure: the status of the response
    (401 included, nothing is retried), 500 when there is no response. *)
Theorem V1_operation_failure op r :
  validateStatus (resp_status r) = false → resp_status r ≠ 0%Z →
  (∃ a, V1.operation op (Answered r) = Threw (ThrownAPIError a) ∧
        status a = resp_status r ∧ details a = Some (resp_data r)) ∧
  ∀ msg, V1.operation op (NoAnswer msg)
         = Threw (ThrownAPIError (mkAPIError msg 500 None)).
Proof.
  intros Hv H0. split; [|done].
  unfold V1.operation, V1.axios_settle. rewrite Hv.
  eexists. split; [done|]. simpl. by rewrite (proj2 (Z.eqb_neq _ _) H0).
Qed.

Lemma V1_operation_failure_witness :
  (∃ a, V1.operation (getNode 999) (answer 404 None None)
        = Threw (ThrownAPIError a) ∧
        status a = 404%Z ∧ details a = Some (mkData None None "")) ∧
  ∀ msg, V1.operation (getNode 999) (NoAnswer msg)
         = Threw (ThrownAPIError (mkAPIError msg 500 None)).
Proof.
  apply (V1_operation_failure (getNode 999)
           (mkResponse 404 (mkData None None ""))).
  - reflexivity.
  - discriminate.
Defined.

(** * Loading the graph *)

Section FetchFacts.
Context {number : Type}.
Variable Number : number → number.
Variable toLowerCase : string → string.

Lemma nodeMap_snoc (l : list (@NetworkGraph.NetworkNode number)) n :
  NetworkGraph.nodeMap (l ++ [n])
  = <[NetworkGraph.id n := n]> (NetworkGraph.nodeMap l).
Proof. unfold NetworkGraph.nodeMap. by rewrite foldl_snoc. Qed.

(** The map built from the fetched nodes gives, for an id, the last fetched
    node with that id. *)
Lemma nodeMap_transformed (nodesData : list (@NetworkGraph.APINode number)) k :
  NetworkGraph.nodeMap (NetworkGraph.transformNode Number toLowerCase <$> nodesData)
    !! pretty k
  = NetworkGraph.transformNode Number toLowerCase
      <$> last (filter (λ n, NetworkGraph.node_id n = k) nodesData).
Proof.
  induction nodesData as [|n l IH] using rev_ind; [done|].
  rewrite fmap_app. simpl. rewrite nodeMap_snoc, filter_app. simpl.
  destruct (decide (NetworkGraph.node_id n = k)) as [<-|Hne].
  - rewrite lookup_insert_eq, filter_cons_True, filter_nil by done.
    by rewrite last_snoc.
  - rewrite lookup_insert_ne by (intros ?%(inj pretty); done).
    rewrite filter_cons_False, filter_nil, app_nil_r by done. exact IH.
Qed.

Lemma last_filter_is_Some (nodesData : list (@NetworkGraph.APINode number)) k :
  is_Some (last (filter (λ n, NetworkGraph.node_id n = k) nodesData))
  ↔ k ∈ NetworkGraph.node_id <$> nodesData.
Proof.
  rewrite list_elem_of_fmap. split.
  - intros [n Hn]. apply last_Some in Hn as [l' Hl'].
    assert (n ∈ filter (λ n, NetworkGraph.node_id n = k) nodesData) as Hin.
    { rewrite Hl'. apply elem_of_app. right. by left. }
    apply list_elem_of_filter in Hin as [<- Hin]. eauto.
  - intros (n & -> & Hin).
    assert (n ∈ filter (λ m, NetworkGraph.node_id m = NetworkGraph.node_id n)
                       nodesData) as Hf by by apply list_elem_of_filter.
    destruct (filter _ nodesData) as [|x l] using rev_ind.
    + by apply elem_of_nil in Hf.
    + rewrite last_snoc. eauto.
Qed.

Lemma attached_lookup nodesData (edge : @NetworkGraph.APIEdge number) :
  NetworkGraph.attached nodesData edge ↔
  ∃ s t,
    last (filter (λ n, NetworkGraph.node_id n = NetworkGraph.edge_source edge)
                 nodesData) = Some s ∧
    last (filter (λ n, NetworkGraph.node_id n = NetworkGraph.edge_target edge)
                 nodesData) = Some t.
Proof.
  unfold NetworkGraph.attached. rewrite <-!last_filter_is_Some.
  unfold is_Some. split.
  - intros [[s Hs] [t Ht]]. eauto.
  - intros (s & t & Hs & Ht). eauto.
Qed.


Lemma transformLinks_dangling nodesData good edge rest :
  Forall (NetworkGraph.attached nodesData) good →
  ¬ NetworkGraph.attached nodesData edge →
  NetworkGraph.transformLinks Number
    (NetworkGraph.nodeMap
       (NetworkGraph.transformNode Number toLowerCase <$> nodesData))
    (good ++ edge :: rest) = inl (NetworkGraph.invalid_edge edge).
Proof.
  intros Hgood Hbad. induction Hgood as [|e es He _ IH]; simpl.
  - rewrite !nodeMap_transformed.
    destruct (last (filter _ nodesData)) as [s|] eqn:Hs; [|done].
    destruct (last (filter (λ n, NetworkGraph.node_id n
                                 = NetworkGraph.edge_target edge) nodesData))
      as [t|] eqn:Ht; [|done].
    destruct Hbad. apply attached_lookup. eauto.
  - apply attached_lookup in He as (s & t & Hs & Ht).
    rewrite !nodeMap_transformed, Hs, Ht. simpl. by rewrite IH.
Qed.




(** When some edge has an end that is not among the fetched nodes, the
    fetch ends with the message naming the first such edge, not loading,
    and with the nodes and links it had before: nothing of the new data is
    shown. *)
Theorem fetch_dangling_edge nodesData good edge rest g :
  Forall (NetworkGraph.attached nodesData) good →
  ¬ NetworkGraph.attached nodesData edge →
  NetworkGraph.fetchNetworkData Number toLowerCase
    (inr (nodesData, (good ++ edge :: rest)%list)) g
  = NetworkGraph.mk (NetworkGraph.nodes g) (NetworkGraph.links g) false
      (Some ("Invalid edge: source or target node not found for edge "
             +:+ pretty (NetworkGraph.edge_id edge))).
Proof.
  intros Hgood Hbad.
  unfold NetworkGraph.fetchNetworkData, NetworkGraph.fetch_settled.
  by rewrite (transformLinks_dangling _ _ _ _ Hgood Hbad).
Qed.

(** When [getNodes] or [getEdges] has failed, whatever the reason, the
    component shows ["Failed to fetch network data"] (the record thrown by
    the service is not an [Error]) and keeps the nodes and links it had. *)
Theorem fetch_service_failure st id t op x g :
  reachable st → tasks st !! id = Some t → origin t = FromOperation op →
  phase t = Settled (Threw x) →
  NetworkGraph.fetchNetworkData Number toLowerCase (inl x) g
  = NetworkGraph.mk (NetworkGraph.nodes g) (NetworkGraph.links g) false
      (Some "Failed to fetch network data").
Proof.
  intros Hr Hid Ho Hph.
  pose proof (Outcomes_reachable _ Hr _ _ _ Hid Hph) as Hp.
  rewrite Ho in Hp. destruct Hp as [[_ [=]]|[[_ [d [=]]]|[e [= ->]]]].
  done.
Qed.
End FetchFacts.

(** * Requests that do not involve the refresh *)

(** A request that fails in any way other than a first 401 goes straight
    to the caller: the caller gets the record built by [handleError],
    nothing is sent, [refreshing] and the credentials are as before, and no
    other call changes. *)
Theorem failure_bypasses_refresh st id t n :
  tasks st !! id = Some t → phase t = InFlight → is_refresh (origin t) = false →
  fails_outside_refresh t n →
  tasks (step st (Deliver id n)) !! id = Some (abandoned (error_of n) t) ∧
  (∀ j, j ≠ id → tasks (step st (Deliver id n)) !! j = tasks st !! j) ∧
  wire (step st (Deliver id n)) = wire st ∧
  refreshing (step st (Deliver id n)) = refreshing st ∧
  credentials (step st (Deliver id n)) = credentials st.
Proof.
  intros Hid Hph Ho Hn. simpl.
  rewrite (deliver_failure _ _ _ _ Hid Hph Ho Hn).
  split; [by apply lookup_finish_eq|].
  split; [|done].
  intros j Hj. by apply lookup_finish_ne.
Qed.

Lemma failure_bypasses_refresh_witness :
  tasks (step one_call (Deliver 0 (NoAnswer "Network Error"))) !! 0
  = Some (abandoned (error_of (NoAnswer "Network Error"))
            (mkTask (FromOperation getNodes) false (Some "Bearer T1") InFlight)) ∧
  (∀ j, j ≠ 0 →
     tasks (step one_call (Deliver 0 (NoAnswer "Network Error"))) !! j
     = tasks one_call !! j) ∧
  wire (step one_call (Deliver 0 (NoAnswer "Network Error"))) = wire one_call ∧
  refreshing (step one_call (Deliver 0 (NoAnswer "Network Error")))
  = refreshing one_call ∧
  credentials (step one_call (Deliver 0 (NoAnswer "Network Error")))
  = credentials one_call.
Proof.
  apply (failure_bypasses_refresh one_call 0
           (mkTask (FromOperation getNodes) false (Some "Bearer T1") InFlight)
           (NoAnswer "Network Error")).
  - vm_compute. reflexivity.
  - reflexivity.
  - reflexivity.
  - exact I.
Defined.

(** An operation answered 2xx gives its caller the body of the response
    (nothing for the three [delete] operations), whether or not the request
    had been retried; nothing is sent, and neither [refreshing], the
    credentials nor any other call changes. *)
Theorem success_returns_response_data st id t op r :
  tasks st !! id = Some t → origin t = FromOperation op → phase t = InFlight →
  validateStatus (resp_status r) = true →
  phase_of (step st (Deliver id (Answered r))) id
  = Some (Settled (if returns_void op then ReturnedVoid
                   else Returned (resp_data r))) ∧
  (∀ j, j ≠ id →
     tasks (step st (Deliver id (Answered r))) !! j = tasks st !! j) ∧
  wire (step st (Deliver id (Answered r))) = wire st ∧
  refreshing (step st (Deliver id (Answered r))) = refreshing st ∧
  credentials (step st (Deliver id (Answered r))) = credentials st.
Proof.
  intros Hid Ho Hph Hv. simpl. unfold deliver. rewrite Hid, Hph, Hv.
  unfold fulfilled. rewrite Hid, Ho.
  split; [|split; [|done]].
  - unfold phase_of. by rewrite (lookup_finish_eq _ _ _ _ Hid).
  - intros j Hj. by apply lookup_finish_ne.
Qed.

Lemma success_returns_response_data_witness :
  phase_of (step one_call
              (Deliver 0 (Answered (mkResponse 200 (mkData None None "[]"))))) 0
  = Some (Settled (if returns_void getNodes then ReturnedVoid
                   else Returned (mkData None None "[]"))) ∧
  (∀ j, j ≠ 0 →
     tasks (step one_call
              (Deliver 0 (Answered (mkResponse 200 (mkData None None "[]")))))
       !! j = tasks one_call !! j) ∧
  wire (step one_call
          (Deliver 0 (Answered (mkResponse 200 (mkData None None "[]")))))
  = wire one_call ∧
  refreshing (step one_call
                (Deliver 0 (Answered (mkResponse 200 (mkData None None "[]")))))
  = refreshing one_call ∧
  credentials (step one_call
                 (Deliver 0 (Answered (mkResponse 200 (mkData None None "[]")))))
  = credentials one_call.
Proof.
  apply (success_returns_response_data one_call 0
           (mkTask (FromOperation getNodes) false (Some "Bearer T1") InFlight)
           getNodes (mkResponse 200 (mkData None None "[]"))).
  - vm_compute. reflexivity.
  - reflexivity.
  - reflexivity.
  - reflexivity.
Defined.

(** * Logging out *)

(** [logout] clears the five places a credential lives in and nothing else:
    calls in progress, requests already sent and the refresh promise stay
    as they are.  Logging out twice is the same as logging out once. *)
Theorem logout_clears_credentials_only st :
  Unauthenticated (logout st) ∧
  tasks (logout st) = tasks st ∧
  wire (logout st) = wire st ∧
  refreshing (logout st) = refreshing st ∧
  logout (logout st) = logout st.
Proof.
  split; [apply Unauthenticated_logout|]. do 3 (split; [done|]).
  unfold logout. simpl. f_equal.
  rewrite (delete_id _ "accessToken"), (delete_id _ "refreshToken"); [done|..].
  - apply lookup_delete_eq.
  - rewrite lookup_delete_ne by done. apply lookup_delete_eq.
Qed.

(** * What a new process finds *)

Lemma constructor_header storage a :
  storage !! "accessToken" = Some a → truthy (Some a) = true →
  constructor storage
  = mkState (Some a) (storage !! "refreshToken") None storage
            (Some (Bearer a)) [] [].
Proof.
  intros Ha Ht. unfold constructor. simpl. rewrite Ha.
  simpl in Ht. rewrite Ht. unfold setAuthHeader. simpl. done.
Qed.

(** After a refresh that succeeded, a process started over the same storage
    holds the new access token, sends it with its first request, and has
    the refresh token the storage held before the refresh. *)
Theorem refreshed_token_survives_restart st p tp r tok op :
  tasks st !! p = Some tp → is_refresh (origin tp) = true →
  phase tp = InFlight → validateStatus (resp_status r) = true →
  access (resp_data r) = Some tok → truthy (Some tok) = true →
  accessToken (restart (step st (Deliver p (Answered r)))) = Some tok ∧
  refreshToken (restart (step st (Deliver p (Answered r))))
  = localStorage st !! "refreshToken" ∧
  wire (step (restart (step st (Deliver p (Answered r)))) (Call op))
  = [mkSent 0 (FromOperation op) (Some (Bearer tok))].
Proof.
  intros Hp Ho Hph Hv Ha Ht. simpl.
  destruct (refresh_ok_credentials st p tp r tok Hp Ho Hph Hv Ha Ht)
    as (_ & Hsa & _ & _ & Hsr).
  unfold restart. rewrite (constructor_header _ tok Hsa Ht), Hsr. done.
Qed.

Lemma refreshed_token_survives_restart_witness :
  accessToken
    (restart (step parked_one
                (Deliver 1 (Answered (mkResponse 200 (mkData (Some "T2") None ""))))))
  = Some "T2" ∧
  refreshToken
    (restart (step parked_one
                (Deliver 1 (Answered (mkResponse 200 (mkData (Some "T2") None ""))))))
  = localStorage parked_one !! "refreshToken" ∧
  wire (step
          (restart (step parked_one
                      (Deliver 1 (Answered (mkResponse 200
                                              (mkData (Some "T2") None ""))))))
          (Call getEdges))
  = [mkSent 0 (FromOperation getEdges) (Some (Bearer "T2"))].
Proof.
  apply (refreshed_token_survives_restart parked_one 1
           (mkTask (FromRefresh "R1") false (Some "Bearer T1") InFlight)
           (mkResponse 200 (mkData (Some "T2") None "")) "T2" getEdges).
  - vm_compute. reflexivity.
  - reflexivity.
  - reflexivity.
  - reflexivity.
  - reflexivity.
  - reflexivity.
Defined.

(** After a [login] that succeeded, a process started over the same storage
    holds both tokens and sends the access token with its first request. *)
Theorem login_survives_reload st id t r a f op :
  tasks st !! id = Some t → is_login (origin t) = true → phase t = InFlight →
  validateStatus (resp_status r) = true →
  access (resp_data r) = Some a → refresh (resp_data r) = Some f →
  truthy (Some a) = true → truthy (Some f) = true →
  phase_of (step st (Deliver id (Answered r))) id = Some (Settled ReturnedVoid) ∧
  accessToken (restart (step st (Deliver id (Answered r)))) = Some a ∧
  refreshToken (restart (step st (Deliver id (Answered r)))) = Some f ∧
  wire (step (restart (step st (Deliver id (Answered r)))) (Call op))
  = [mkSent 0 (FromOperation op) (Some (Bearer a))].
Proof.
  intros Hid Ho Hph Hv Ha Hf Hta Htf. simpl.
  rewrite (deliver_login_ok _ _ _ _ _ _ Hid Ho Hph Hv Ha Hf Hta Htf).
  split.
  { unfold phase_of. by rewrite (lookup_finish_eq _ _ (save a f st) t). }
  unfold restart.
  assert (localStorage (finish id ReturnedVoid (save a f st)) !! "accessToken"
          = Some a) as Hsa.
  { simpl. rewrite lookup_insert_ne by done. apply lookup_insert_eq. }
  rewrite (constructor_header _ a Hsa Hta). simpl.
  rewrite lookup_insert_eq. done.
Qed.

Lemma login_survives_reload_witness :
  phase_of (step login_again
              (Deliver 0 (Answered (mkResponse 200
                                      (mkData (Some "T9") (Some "R9") ""))))) 0
  = Some (Settled ReturnedVoid) ∧
  accessToken
    (restart (step login_again
                (Deliver 0 (Answered (mkResponse 200
                                        (mkData (Some "T9") (Some "R9") ""))))))
  = Some "T9" ∧
  refreshToken
    (restart (step login_again
                (Deliver 0 (Answered (mkResponse 200
                                        (mkData (Some "T9") (Some "R9") ""))))))
  = Some "R9" ∧
  wire (step
          (restart (step login_again
                      (Deliver 0 (Answered (mkResponse 200
                                              (mkData (Some "T9") (Some "R9") ""))))))
          (Call getNodes))
  = [mkSent 0 (FromOperation getNodes) (Some (Bearer "T9"))].
Proof.
  apply (login_survives_reload login_again 0
           (mkTask (FromLogin "user" "wrong") false (Some "Bearer T1") InFlight)
           (mkResponse 200 (mkData (Some "T9") (Some "R9") "")) "T9" "R9"
           getNodes).
  - vm_compute. reflexivity.
  - reflexivity.
  - reflexivity.
  - reflexivity.
  - reflexivity.
  - reflexivity.
  - reflexivity.
  - reflexivity.
Defined.

(** * A 401 when no refresh token is held *)

(** A first 401 for a request of a process that holds no usable refresh
    token (none, or the empty string) and has no refresh under way: no
    refresh request is sent, whatever credential was left is cleared, and
    the caller gets status 500 with the message of [doRefreshToken]. *)
Theorem unauthorized_without_refresh_token st id t r :
  tasks st !! id = Some t → phase t = InFlight → _retry t = false →
  is_refresh (origin t) = false →
  resp_status r = 401%Z → refreshing st = None →
  truthy (refreshToken st) = false →
  Unauthenticated (step st (Deliver id (Answered r))) ∧
  wire (step st (Deliver id (Answered r))) = wire st ∧
  refreshing (step st (Deliver id (Answered r))) = None ∧
  phase_of (step st (Deliver id (Answered r))) id
  = Some (Settled (Threw (ThrownAPIError
            (mkAPIError "No refresh token available" 500 None)))).
Proof.
  intros Hid Hph Hre Ho Hs Hr Ht. simpl.
  rewrite (deliver_unauthorized_fails_fast _ _ _ _ Hid Hph Hre Ho Hs Hr Ht).
  split; [|split; [done|split; [done|]]].
  - apply (Unauthenticated_same (logout (set_refreshing None
             (update_task id (set_retry true) st)))); [done..|].
    apply Unauthenticated_logout.
  - unfold phase_of. erewrite lookup_finish_eq; [done|].
    apply (lookup_update_task_eq _ _ st t Hid).
Qed.

Lemma unauthorized_without_refresh_token_witness :
  Unauthenticated (step half_session (Deliver 0 unauthorized)) ∧
  wire (step half_session (Deliver 0 unauthorized)) = wire half_session ∧
  refreshing (step half_session (Deliver 0 unauthorized)) = None ∧
  phase_of (step half_session (Deliver 0 unauthorized)) 0
  = Some (Settled (Threw (ThrownAPIError
            (mkAPIError "No refresh token available" 500 None)))).
Proof.
  apply (unauthorized_without_refresh_token half_session 0
           (mkTask (FromOperation getNodes) false (Some "Bearer T1") InFlight)
           (mkResponse 401 (mkData None None ""))).
  - vm_compute. reflexivity.
  - reflexivity.
  - reflexivity.
  - reflexivity.
  - reflexivity.
  - reflexivity.
  - reflexivity.
Defined.

(** * The refresh request answered 401, in general *)

(** In any state the process can reach, a first 401 for the refresh request
    parks its interceptor behind the refresh promise itself.  From then on,
    whatever happens, the refresh request and every call waiting for it
    stay parked. *)
Theorem unauthorized_refresh_parks_for_good st p tp r w tw i evs :
  reachable st → tasks st !! p = Some tp → is_refresh (origin tp) = true →
  phase tp = InFlight → _retry tp = false → resp_status r = 401%Z →
  tasks st !! w = Some tw → phase tw = AwaitRefresh p i →
  phase_of (run (step st (Deliver p (Answered r))) evs) p
  = Some (AwaitRefresh p false) ∧
  phase_of (run (step st (Deliver p (Answered r))) evs) w
  = Some (AwaitRefresh p i).
Proof.
  intros Hr Hp Ho Hph Hre Hs Hw Hpw.
  destruct (Coordinated_reachable _ Hr) as (Q1 & _).
  pose proof (Q1 _ _ Hp Ho Hph) as Hrf.
  assert (w ≠ p) as Hne by (intros ->; simplify_eq; congruence).
  set (tp' := set_phase (AwaitRefresh p false) (set_retry true tp)).
  assert (step st (Deliver p (Answered r))
          = update_task p (set_phase (AwaitRefresh p false))
              (update_task p (set_retry true) st)) as ->.
  { simpl. unfold deliver. rewrite Hp, Hph, Hs. simpl.
    unfold interceptor. rewrite Hp, Hre. unfold status_is_not_401. simpl.
    rewrite Hs. simpl. unfold refreshAccessToken. simpl. rewrite Hrf.
    rewrite list_lookup_alter_eq, Hp. simpl. by rewrite Hph. }
  destruct (held_run p w tp' tw false i eq_refl Hpw evs
              (update_task p (set_phase (AwaitRefresh p false))
                 (update_task p (set_retry true) st))) as [H1 H2].
  { split.
    - erewrite lookup_update_task_eq; [done|].
      by apply lookup_update_task_eq.
    - by rewrite !lookup_update_task_ne. }
  unfold phase_of. rewrite H1, H2. simpl. by rewrite Hpw.
Qed.

Lemma unauthorized_refresh_parks_for_good_witness :
  phase_of (run (step parked_pair
                   (Deliver 2 (Answered (mkResponse 401 (mkData None None "")))))
              [Logout; Deliver 0 (answer 200 None None); Call getNodes]) 2
  = Some (AwaitRefresh 2 false) ∧
  phase_of (run (step parked_pair
                   (Deliver 2 (Answered (mkResponse 401 (mkData None None "")))))
              [Logout; Deliver 0 (answer 200 None None); Call getNodes]) 0
  = Some (AwaitRefresh 2 true).
Proof.
  apply (unauthorized_refresh_parks_for_good parked_pair 2
           (mkTask (FromRefresh "R1") false (Some "Bearer T1") InFlight)
           (mkResponse 401 (mkData None None "")) 0
           (mkTask (FromOperation getNodes) true (Some "Bearer T1")
                   (AwaitRefresh 2 true))
           true [Logout; Deliver 0 (answer 200 None None); Call getNodes]).
  - apply (reachable_intro
             (<["refreshToken" := "R1"]> (<["accessToken" := "T1"]> ∅))
             [Call getNodes; Call getEdges;
              Deliver 0 unauthorized; Deliver 1 unauthorized]).
    vm_compute. reflexivity.
  - vm_compute. reflexivity.
  - reflexivity.
  - reflexivity.
  - reflexivity.
  - reflexivity.
  - vm_compute. reflexivity.
  - reflexivity.
Defined.

(** * The refresh promise is released *)

Lemma Started_idle st : refreshing st = None → Started st.
Proof. intros H p. by rewrite H. Qed.

Lemma Started_same st st' :
  tasks st' = tasks st → refreshing st' = refreshing st →
  Started st → Started st'.
Proof. unfold Started. by intros -> ->. Qed.

Lemma Started_other st st' id t :
  Started st → tasks st !! id = Some t → (∀ q, phase t ≠ AwaitRefresh q true) →
  (∀ j, j ≠ id → tasks st' !! j = tasks st !! j) →
  refreshing st' = refreshing st → Started st'.
Proof.
  intros HS Hid Hph Hother Hr p Hp. rewrite Hr in Hp.
  destruct (HS p Hp) as (w & tw & Hw & Hpw).
  exists w, tw. split; [|done]. rewrite Hother; [done|].
  intros ->. simplify_eq. by eapply Hph.
Qed.

Lemma Started_finish id o s st t :
  Started st → tasks st !! id = Some t → phase t = InFlight →
  tasks s = tasks st → refreshing s = refreshing st →
  Started (finish id o s).
Proof.
  intros HS Hid Hph Et Er. apply (Started_other st _ id t); [done|done|..].
  - intros q. by rewrite Hph.
  - intros j Hj. rewrite lookup_finish_ne by done. by rewrite Et.
  - exact Er.
Qed.

Lemma Started_settle fuel p r st t :
  Started (finish p (outcome_of r) st) → tasks st !! p = Some t →
  Started (settle fuel p r st).
Proof.
  apply settle_preserves_settled.
  - intros tok w s tw q i _ HS _ Hw Hph. destruct i.
    + apply Started_idle. by rewrite refreshing_send.
    + apply (Started_other s _ w tw); [done|done|..].
      * intros q'. by rewrite Hph.
      * intros j Hj. rewrite lookup_send_ne by done.
        by rewrite lookup_update_task_ne.
      * by rewrite refreshing_send.
  - intros e w s tw q i _ HS _ Hw Hph _. destruct i.
    + by apply Started_idle.
    + apply (Started_other s _ w tw); [done|done|..].
      * intros q'. by rewrite Hph.
      * intros j Hj. by rewrite lookup_finish_ne.
      * done.
  - intros e w s tw q i _ HS _ Hw Hph _. destruct i.
    + by apply Started_idle.
    + apply (Started_other s _ w tw); [done|done|..].
      * intros q'. by rewrite Hph.
      * intros j Hj. by rewrite lookup_finish_ne.
      * done.
Qed.

Lemma Started_rejected fuel id e s st t :
  Started st → tasks st !! id = Some t → phase t = InFlight →
  tasks s = tasks st → refreshing s = refreshing st →
  Started (rejected (settle fuel) id e s).
Proof.
  intros HS Hid Hph Et Er. unfold rejected. rewrite Et, Hid.
  destruct (origin t) eqn:Eo; try by apply (Started_finish _ _ _ st t).
  apply (Started_settle _ _ _ _ t); [|simpl; by rewrite Et].
  by apply (Started_finish _ _ _ st t).
Qed.

Lemma Started_fulfilled fuel id r st t :
  Started st → tasks st !! id = Some t → phase t = InFlight →
  Started (fulfilled fuel id r st).
Proof.
  intros HS Hid Hph. unfold fulfilled. rewrite Hid.
  destruct (origin t) eqn:Eo.
  - by apply (Started_finish _ _ _ st t).
  - unfold login_response.
    destruct (resp_data r) as [|[?|] [?|] ?];
      try by apply (Started_finish _ _ _ st t).
    destruct (negb _ || negb _); by apply (Started_finish _ _ _ st t).
  - unfold refresh_response.
    assert (∀ s y, tasks s = tasks st → refreshing s = refreshing st →
              Started (settle fuel id y s)) as Hs.
    { intros s y Et Er. apply (Started_settle _ _ _ _ t); [|by rewrite Et].
      by apply (Started_finish _ _ _ st t). }
    destruct (resp_data r) as [|[a|] ? ?]; [by apply Hs| |by apply Hs].
    destruct (truthy (Some a)); by apply Hs.
Qed.

Lemma Started_refreshAccessToken fuel id st t :
  Started st → tasks st !! id = Some t → phase t = InFlight →
  Started (refreshAccessToken fuel id st).
Proof.
  intros HS Hid Hph. unfold refreshAccessToken.
  assert (∀ e s, tasks s = tasks st → refreshing s = refreshing st →
            Started (rejected (settle fuel) id e (logout s))) as Hrej.
  { intros e s Et Er. by apply (Started_rejected _ _ _ _ st t). }
  destruct (refreshing st) as [p|] eqn:Hrf.
  - destruct (tasks st !! p ≫= _) as [r|] eqn:Hset.
    + unfold resume. destruct r as [tok|e]; [|by apply Hrej].
      apply (Started_other st _ id t); [done|done|..].
      * intros q. by rewrite Hph.
      * intros j Hj. rewrite lookup_send_ne by done.
        by apply lookup_update_task_ne.
      * by rewrite refreshing_send.
    + apply (Started_other st _ id t); [done|done|..].
      * intros q. by rewrite Hph.
      * intros j Hj. by apply lookup_update_task_ne.
      * done.
  - assert (∀ e, Started (resume (settle fuel) id true (Rejected e) st))
      as Hres.
    { intros e. unfold resume. by apply Hrej. }
    destruct (refreshToken st) as [tok|]; [|apply Hres].
    destruct (truthy (Some tok)); [|apply Hres].
    pose proof (lookup_lt_Some _ _ _ Hid) as Hlt.
    intros p [= <-].
    exists id, (set_phase (AwaitRefresh (length (tasks st)) true) t).
    split; [|done]. apply lookup_update_task_eq.
    rewrite axios_call_eq. simpl. by rewrite lookup_app_l.
Qed.

Lemma Started_deliver id n st : Started st → Started (deliver id n st).
Proof.
  intros HS. unfold deliver.
  destruct (tasks st !! id) as [t|] eqn:Hid; [|done].
  destruct (phase t) eqn:Hph; try done.
  assert (∀ e, Started (interceptor (length (tasks st)) id e st)) as Hi.
  { intros e. unfold interceptor. rewrite Hid.
    destruct (status_is_not_401 e || _retry t);
      [by apply (Started_rejected _ _ _ _ st t)|].
    apply (Started_refreshAccessToken _ _ _ (set_retry true t));
      [|by apply lookup_update_task_eq|done].
    apply (Started_other st _ id t); [done|done|..].
    - intros q. by rewrite Hph.
    - intros j Hj. by apply lookup_update_task_ne.
    - done. }
  destruct n as [r|msg]; [|apply Hi].
  destruct (validateStatus (resp_status r)); [|apply Hi].
  by apply (Started_fulfilled _ _ _ _ t).
Qed.

Lemma Started_axios_call o st : Started st → Started (axios_call o st).
Proof.
  intros HS p Hp. rewrite axios_call_eq in *. simpl in *.
  destruct (HS p Hp) as (w & t & Hw & Hph). exists w, t. split; [|done].
  rewrite lookup_app_l; [done|]. by eapply lookup_lt_Some.
Qed.

Lemma Started_reachable st : reachable st → Started st.
Proof.
  intros (storage & evs & ->).
  assert (Started (constructor storage)) as H0.
  { apply Started_idle. unfold constructor. simpl.
    destruct (storage !! "accessToken") as [a|]; [|done].
    by destruct (negb (String.eqb a "")). }
  revert H0. generalize (constructor storage).
  induction evs as [|ev evs IH]; [done|].
  intros s HS. apply IH. destruct ev; simpl.
  - by apply Started_axios_call.
  - by apply Started_axios_call.
  - by apply (Started_same s).
  - by apply Started_deliver.
Qed.

(** What waking one waiter does to [refreshing]. *)
Lemma wake_releases rec p r s w :
  plain_waiters p s →
  (refreshing (wake rec p r s w) = None
   ∨ refreshing (wake rec p r s w) = refreshing s) ∧
  (∀ t, tasks s !! w = Some t → phase t = AwaitRefresh p true →
        refreshing (wake rec p r s w) = None).
Proof.
  intros Hplain. unfold wake.
  destruct (tasks s !! w) as [t|] eqn:Ew; [|split; [by right|done]].
  pose proof (Hplain w t Ew) as Ho. unfold awaits in Ho.
  destruct (phase t) as [|q i|] eqn:Eph;
    [split; [by right|intros ? [= <-]; congruence]| |
     split; [by right|intros ? [= <-]; congruence]].
  destruct (decide (q = p)) as [->|Hne];
    [|split; [by right|intros ? [= <-]; congruence]].
  rewrite bool_decide_eq_true_2 in Ho by done. specialize (Ho eq_refl).
  assert (refreshing (resume rec w i r s)
          = if i then None else refreshing s) as E.
  { unfold resume. destruct r as [tok|e].
    - rewrite refreshing_send. by destruct i.
    - unfold rejected. simpl.
      replace (tasks (if i then set_refreshing None s else s)) with (tasks s)
        by by destruct i.
      rewrite Ew. destruct (origin t); try done; simpl; by destruct i. }
  rewrite E. split.
  - destruct i; [by left|by right].
  - intros ? [= <-] Hi. rewrite Eph in Hi. by injection Hi as ->.
Qed.

Lemma plain_waiters_wake_any rec p r s w :
  plain_waiters p s → plain_waiters p (wake rec p r s w).
Proof.
  intros Hplain. destruct r as [tok|e]; [|by apply plain_waiters_wake].
  destruct (wake_fulfilled rec p tok s w) as [Hother Hat].
  intros j t Hj Haw. destruct (decide (j = w)) as [->|Hne].
  - destruct (tasks s !! w) as [tw|] eqn:Ew.
    + destruct (awaits p tw) eqn:Eaw; destruct Hat as [Hat _];
        rewrite Hat in Hj; injection Hj as <-; [done|by apply (Hplain w tw)].
    + destruct Hat as [Hat _]. congruence.
  - rewrite Hother in Hj by done. by apply (Hplain j t).
Qed.

Lemma tasks_wake_other rec p r s w j :
  plain_waiters p s → j ≠ w → tasks (wake rec p r s w) !! j = tasks s !! j.
Proof.
  intros Hplain Hj. destruct r as [tok|e].
  - by apply (wake_fulfilled rec p tok s w).
  - by apply (wake_rejected rec p e s w Hplain).
Qed.

(** Waking every waiter of a list that holds the call that created the
    promise leaves [refreshing] empty. *)
Lemma wake_all_releases rec p r l : ∀ s,
  plain_waiters p s →
  refreshing s = None
  ∨ (∃ w t, w ∈ l ∧ tasks s !! w = Some t ∧ phase t = AwaitRefresh p true) →
  refreshing (foldl (wake rec p r) s l) = None.
Proof.
  induction l as [|x l IH]; intros s Hplain H; simpl.
  { destruct H as [H|(w & t & Hin & _)]; [done|]. by apply elem_of_nil in Hin. }
  destruct (wake_releases rec p r s x Hplain) as [Hkeep Hinit].
  apply IH; [by apply plain_waiters_wake_any|].
  destruct H as [H|(w & t & Hin & Hw & Hph)].
  { left. destruct Hkeep as [E|E]; [done|by rewrite E]. }
  destruct (decide (w = x)) as [->|Hne].
  - left. by apply (Hinit t).
  - right. exists w, t. apply elem_of_cons in Hin as [->|Hin]; [done|].
    split; [done|]. split; [|done]. by rewrite tasks_wake_other.
Qed.

Lemma plain_waiters_finish p o s st tp :
  plain_waiters p st → tasks s = tasks st → tasks st !! p = Some tp →
  plain_waiters p (finish p o s).
Proof.
  intros Hplain Et Hp j t Hj Haw. destruct (decide (j = p)) as [->|Hne].
  - erewrite lookup_finish_eq in Hj by (by rewrite Et).
    injection Hj as <-. done.
  - rewrite lookup_finish_ne, Et in Hj by done. by apply (Hplain j t).
Qed.

Lemma settle_releases st s p tp r :
  reachable st → tasks st !! p = Some tp → is_refresh (origin tp) = true →
  phase tp = InFlight → tasks s = tasks st → refreshing s = refreshing st →
  refreshing (settle (length (tasks st)) p r s) = None.
Proof.
  intros Hr Hp Ho Hph Et Er.
  pose proof (lookup_lt_Some _ _ _ Hp) as Hlt.
  destruct (length (tasks st)) as [|f] eqn:El; [lia|].
  change (settle (S f) p r s) with
    (foldl (wake (settle f) p r) (finish p (outcome_of r) s)
           (seq 0 (length (tasks (finish p (outcome_of r) s))))).
  pose proof (reachable_plain_waiters _ _ _ Hr Hp Hph) as Hplain.
  apply wake_all_releases.
  { by apply (plain_waiters_finish _ _ _ st tp). }
  right. destruct (Coordinated_reachable _ Hr) as (Q1 & _).
  pose proof (Q1 _ _ Hp Ho Hph) as Hrf.
  destruct (Started_reachable _ Hr p Hrf) as (w & tw & Hw & Hpw).
  assert (w ≠ p) as Hne by (intros ->; simplify_eq; congruence).
  exists w, tw. split; [|split; [|done]].
  - apply elem_of_seq. simpl. rewrite length_alter, Et.
    pose proof (lookup_lt_Some _ _ _ Hw). lia.
  - rewrite lookup_finish_ne by done. by rewrite Et.
Qed.

Lemma deliver_refresh_releases st p tp n :
  reachable st → tasks st !! p = Some tp → is_refresh (origin tp) = true →
  phase tp = InFlight → ¬ first_unauthorized tp n →
  refreshing (deliver p n st) = None.
Proof.
  intros Hr Hp Ho Hph Hn.
  assert (refresh_fails tp n → refreshing (deliver p n st) = None) as Hfail.
  { intros Hf. rewrite (deliver_refresh_fail _ _ _ _ Hp Ho Hph Hf).
    by apply (settle_releases st _ p tp). }
  destruct n as [r|msg]; [|apply Hfail; by left].
  destruct (validateStatus (resp_status r)) eqn:Hv.
  - destruct (access (resp_data r)) as [tok|] eqn:Ha.
    + destruct (truthy (Some tok)) eqn:Ht.
      * rewrite (deliver_refresh_ok _ _ _ _ _ Hp Ho Hph Hv Ha Ht).
        by apply (settle_releases st _ p tp).
      * apply Hfail. right. by rewrite Ha.
    + apply Hfail. right. by rewrite Ha.
  - apply Hfail. left. split; [done|].
    destruct (decide (resp_status r = 401%Z)) as [Hs|Hs]; [|by left].
    right. destruct (_retry tp) eqn:Hre; [done|]. by destruct Hn.
Qed.

(** In any state the process can reach, the turn in which the refresh
    request settles leaves [refreshing] empty, whether the refresh succeeded
    or failed; the one exception is a first 401 for the refresh request
    itself.  The next request answered 401 therefore starts a new refresh
    instead of reusing the old promise. *)
Theorem refresh_settled_releases_promise st p tp n :
  reachable st → tasks st !! p = Some tp → is_refresh (origin tp) = true →
  phase tp = InFlight → ¬ first_unauthorized tp n →
  refreshing (step st (Deliver p n)) = None.
Proof.
  intros Hr Hp Ho Hph Hn.
  exact (deliver_refresh_releases st p tp n Hr Hp Ho Hph Hn).
Qed.


Lemma refresh_settled_releases_promise_witness :
  refreshing (step parked_pair (Deliver 2 (answer 200 (Some "T2") None))) = None.
Proof.
  apply (refresh_settled_releases_promise parked_pair 2
           (mkTask (FromRefresh "R1") false (Some "Bearer T1") InFlight)
           (answer 200 (Some "T2") None)).
  - apply (reachable_intro
             (<["refreshToken" := "R1"]> (<["accessToken" := "T1"]> ∅))
             [Call getNodes; Call getEdges;
              Deliver 0 unauthorized; Deliver 1 unauthorized]).
    vm_compute. reflexivity.
  - vm_compute. reflexivity.
  - reflexivity.
  - reflexivity.
  - intros [H _]. vm_compute in H. discriminate H.
Defined.

(** * The promise a request finds in [refreshing] *)

Lemma Fresh_idle st : refreshing st = None → Fresh st.
Proof. intros H p. by rewrite H. Qed.

Lemma Fresh_other st st' id t :
  Fresh st → tasks st !! id = Some t → is_refresh (origin t) = false →
  (∀ j, j ≠ id → tasks st' !! j = tasks st !! j) →
  refreshing st' = refreshing st → Fresh st'.
Proof.
  intros HF Hid Ho Hother Hr p Hp. rewrite Hr in Hp.
  destruct (HF p Hp) as (tp & Htp & Hop & Hsp).
  exists tp. split; [|done]. rewrite Hother; [done|].
  intros ->. simplify_eq. congruence.
Qed.

Lemma Fresh_finish id o s st t :
  Fresh st → tasks st !! id = Some t → is_refresh (origin t) = false →
  tasks s = tasks st → refreshing s = refreshing st →
  Fresh (finish id o s).
Proof.
  intros HF Hid Ho Et Er. apply (Fresh_other st _ id t); [done|done|done|..].
  - intros j Hj. rewrite lookup_finish_ne by done. by rewrite Et.
  - exact Er.
Qed.

Lemma deliver_unauthorized_starts st id t r tok :
  tasks st !! id = Some t → phase t = InFlight → _retry t = false →
  resp_status r = 401%Z → refreshing st = None →
  refreshToken st = Some tok → truthy (Some tok) = true →
  deliver id (Answered r) st
  = update_task id (set_phase (AwaitRefresh (length (tasks st)) true))
      (set_refreshing (Some (length (tasks st)))
         (axios_call (FromRefresh tok) (update_task id (set_retry true) st))).
Proof.
  intros Hid Hph Hre Hs Hrf Htok Htr.
  unfold deliver. rewrite Hid, Hph, Hs.
  change (validateStatus 401) with false. cbv iota.
  unfold interceptor. rewrite Hid, Hre.
  replace (status_is_not_401 (status_error r)) with false
    by (unfold status_is_not_401; simpl; by rewrite Hs).
  cbv iota beta delta [orb]. unfold refreshAccessToken.
  change (refreshing (update_task id (set_retry true) st)) with (refreshing st).
  change (refreshToken (update_task id (set_retry true) st))
    with (refreshToken st).
  rewrite Hrf, Htok, Htr. simpl. by rewrite length_alter.
Qed.

Lemma Fresh_deliver id n st : reachable st → Fresh st → Fresh (deliver id n st).
Proof.
  intros Hr HF.
  destruct (tasks st !! id) as [t|] eqn:Hid;
    [|unfold deliver; by rewrite Hid].
  destruct (phase t) eqn:Hph;
    [|unfold deliver; by rewrite Hid, Hph..].
  destruct (is_refresh (origin t)) eqn:Ho.
  - (* the refresh request itself *)
    destruct (Coordinated_reachable _ Hr) as (Q1 & _).
    pose proof (Q1 _ _ Hid Ho Hph) as Hrf.
    assert (¬ first_unauthorized t n → Fresh (deliver id n st)) as Hrel.
    { intros Hn. apply Fresh_idle.
      by apply (deliver_refresh_releases st id t n). }
    destruct n as [r|msg]; [|apply Hrel; intros []].
    destruct (decide (resp_status r = 401%Z)) as [Hs|Hs];
      [|apply Hrel; by intros [? _]].
    destruct (_retry t) eqn:Hre; [apply Hrel; intros [_ ?]; congruence|].
    rewrite (deliver_unauthorized_joins st id t r id t) by (done || by rewrite Hph).
    intros p Hp. simpl in Hp. rewrite Hrf in Hp. injection Hp as <-.
    exists (set_phase (AwaitRefresh id false) (set_retry true t)).
    split; [|done].
    apply lookup_update_task_eq. by apply lookup_update_task_eq.
  - (* an operation or [login] *)
    assert (fails_outside_refresh t n → Fresh (deliver id n st)) as Hfail.
    { intros Hn. rewrite (deliver_failure _ _ _ _ Hid Hph Ho Hn).
      by apply (Fresh_finish _ _ _ st t). }
    destruct n as [r|msg]; [|by apply Hfail].
    destruct (validateStatus (resp_status r)) eqn:Hv.
    { unfold deliver. rewrite Hid, Hph, Hv. unfold fulfilled. rewrite Hid.
      destruct (origin t) eqn:Eo; try done.
      - by apply (Fresh_finish _ _ _ st t); rewrite ?Eo.
      - unfold login_response.
        destruct (resp_data r) as [|[?|] [?|] ?];
          try (by apply (Fresh_finish _ _ _ st t); rewrite ?Eo).
        destruct (negb _ || negb _);
          by apply (Fresh_finish _ _ _ st t); rewrite ?Eo. }
    destruct (decide (resp_status r = 401%Z)) as [Hs|Hs];
      [|apply Hfail; split; [done|by left]].
    destruct (_retry t) eqn:Hre; [apply Hfail; split; [done|by right]|].
    destruct (refreshing st) as [p|] eqn:Hrf.
    + destruct (HF p Hrf) as (tp & Hp & Hop & Hsp).
      rewrite (deliver_unauthorized_joins st id t r p tp) by done.
      apply (Fresh_other st _ id t); [done|done|done|..].
      * intros j Hj. by rewrite !lookup_update_task_ne.
      * done.
    + destruct (truthy (refreshToken st)) eqn:Htr.
      * destruct (refreshToken st) as [tok|] eqn:Htok; [|done].
        rewrite (deliver_unauthorized_starts st id t r tok) by done.
        pose proof (lookup_lt_Some _ _ _ Hid) as Hlt.
        intros p [= <-].
        exists (mkTask (FromRefresh tok) false (Authorization st) InFlight).
        split; [|done].
        rewrite lookup_update_task_ne by lia.
        rewrite axios_call_eq. simpl.
        by rewrite lookup_app_r, length_alter, Nat.sub_diag
          by (by rewrite length_alter).
      * rewrite (deliver_unauthorized_fails_fast st id t r) by done.
        by apply Fresh_idle.
Qed.

Lemma Fresh_axios_call o st : Fresh st → Fresh (axios_call o st).
Proof.
  intros HF p Hp. rewrite axios_call_eq in *. simpl in *.
  destruct (HF p Hp) as (tp & Htp & Hop & Hsp). exists tp. split; [|done].
  rewrite lookup_app_l; [done|]. by eapply lookup_lt_Some.
Qed.

Lemma Fresh_reachable st : reachable st → Fresh st.
Proof.
  intros (storage & evs & ->).
  induction evs as [|ev evs IH] using rev_ind.
  { apply Fresh_idle. unfold constructor. simpl.
    destruct (storage !! "accessToken") as [a|]; [|done].
    by destruct (negb (String.eqb a "")). }
  unfold run. rewrite foldl_snoc. fold (run (constructor storage) evs).
  destruct ev; simpl.
  - by apply Fresh_axios_call.
  - by apply Fresh_axios_call.
  - exact IH.
  - apply Fresh_deliver; [|exact IH]. by exists storage, evs.
Qed.

(** * Requests without credentials *)

Lemma reachable_run st evs : reachable st → reachable (run st evs).
Proof.
  intros (storage & evs0 & ->). exists storage, (evs0 ++ evs)%list.
  unfold run. by rewrite foldl_app.
Qed.

(** A first 401 for a request of a process that holds no credential. *)
Lemma unauthorized_without_credentials s id t r :
  reachable s → Unauthenticated s →
  tasks s !! id = Some t → is_refresh (origin t) = false →
  phase t = InFlight → _retry t = false → resp_status r = 401%Z →
  wire (deliver id (Answered r) s) = wire s ∧
  Unauthenticated (deliver id (Answered r) s) ∧
  refreshing (deliver id (Answered r) s) = refreshing s ∧
  phase_of (deliver id (Answered r) s) id
  = Some (match refreshing s with
          | None =>
              Settled (Threw (ThrownAPIError
                (mkAPIError "No refresh token available" 500 None)))
          | Some p => AwaitRefresh p false
          end).
Proof.
  intros Hreach Hu Hid Ho Hph Hre Hs.
  pose proof Hu as (Ha & Hr & Hh & Hsa & Hsr).
  destruct (refreshing s) as [p|] eqn:Hrf.
  - destruct (Fresh_reachable _ Hreach p Hrf) as (tp & Hp & Hop & Hsp).
    rewrite (deliver_unauthorized_joins s id t r p tp) by done.
    split; [done|]. split; [done|]. split; [done|].
    unfold phase_of. erewrite lookup_update_task_eq; [done|].
    by apply lookup_update_task_eq.
  - rewrite (deliver_unauthorized_fails_fast s id t r)
      by (done || by rewrite Hr).
    split; [done|]. split; [|split; [done|]].
    + apply (Unauthenticated_same (logout (set_refreshing None
               (update_task id (set_retry true) s))));
        [done|apply Unauthenticated_logout].
    + unfold phase_of. erewrite lookup_finish_eq; [done|].
      apply (lookup_update_task_eq _ _ s t Hid).
Qed.

(** C5, as the code has it.  In any state the process can reach, an
    operation called while no credential is stored is sent to the network,
    without an [Authorization] header.  If its first answer is 401 and the
    process still holds no credential when the answer comes (whatever
    happened in between, [evs]), nothing more is sent and the process is
    still without credentials.  When no refresh promise is pending, the
    refresh attempt stops for lack of a refresh token and the operation
    fails with status 500; when a promise is pending ([logout] was called
    during a refresh), the operation is parked behind it. *)
Theorem request_without_credentials_is_sent st op :
  reachable st → Unauthenticated st →
  wire (step st (Call op))
  = (wire st ++ [mkSent (length (tasks st)) (FromOperation op) None])%list ∧
  ∀ evs t r,
    tasks (run st (Call op :: evs)) !! length (tasks st) = Some t →
    origin t = FromOperation op → phase t = InFlight → _retry t = false →
    Unauthenticated (run st (Call op :: evs)) →
    resp_status r = 401%Z →
    wire (run st (Call op :: evs
                    ++ [Deliver (length (tasks st)) (Answered r)])%list)
    = wire (run st (Call op :: evs)) ∧
    Unauthenticated (run st (Call op :: evs
                               ++ [Deliver (length (tasks st)) (Answered r)])%list) ∧
    refreshing (run st (Call op :: evs
                          ++ [Deliver (length (tasks st)) (Answered r)])%list)
    = refreshing (run st (Call op :: evs)) ∧
    phase_of (run st (Call op :: evs
                        ++ [Deliver (length (tasks st)) (Answered r)])%list)
             (length (tasks st))
    = Some (match refreshing (run st (Call op :: evs)) with
            | None =>
                Settled (Threw (ThrownAPIError
                  (mkAPIError "No refresh token available" 500 None)))
            | Some p => AwaitRefresh p false
            end).
Proof.
  intros Hreach Hu. split.
  - destruct Hu as (_ & _ & Hh & _). simpl. by rewrite axios_call_eq, Hh.
  - intros evs t r Hid Ho Hph Hre Hu' Hs.
    assert (run st (Call op :: evs
                      ++ [Deliver (length (tasks st)) (Answered r)])%list
            = deliver (length (tasks st)) (Answered r)
                (run st (Call op :: evs))) as ->.
    { unfold run. rewrite app_comm_cons, foldl_app. done. }
    apply (unauthorized_without_credentials _ _ t); try done.
    + by apply reachable_run.
    + by rewrite Ho.
Qed.

Lemma request_without_credentials_is_sent_witness :
  (wire anonymous_call = [mkSent 0 (FromOperation getNodes) None] ∧
   wire (run logged_out [Call getNodes; Deliver 0 unauthorized])
   = wire anonymous_call ∧
   Unauthenticated (run logged_out [Call getNodes; Deliver 0 unauthorized]) ∧
   phase_of (run logged_out [Call getNodes; Deliver 0 unauthorized]) 0
   = Some (Settled (Threw (ThrownAPIError
             (mkAPIError "No refresh token available" 500 None))))) ∧
  (Unauthenticated logged_out_refreshing ∧
   refreshing logged_out_refreshing = Some 1 ∧
   wire (run logged_out_refreshing [Call getEdges; Deliver 2 unauthorized])
   = wire (run logged_out_refreshing [Call getEdges]) ∧
   phase_of (run logged_out_refreshing [Call getEdges; Deliver 2 unauthorized]) 2
   = Some (AwaitRefresh 1 false)).
Proof.
  split.
  - destruct (request_without_credentials_is_sent logged_out getNodes)
      as [H1 H2].
    + apply (reachable_intro ∅ []). reflexivity.
    + repeat split; reflexivity.
    + destruct (H2 [] (mkTask (FromOperation getNodes) false None InFlight)
                  (mkResponse 401 (mkData None None "")))
        as (H3 & H4 & _ & H5).
      * vm_compute. reflexivity.
      * reflexivity.
      * reflexivity.
      * reflexivity.
      * repeat split; reflexivity.
      * reflexivity.
      * split; [exact H1|]. split; [exact H3|]. split; [exact H4|exact H5].
  - destruct (request_without_credentials_is_sent logged_out_refreshing getEdges)
      as [_ H2].
    + apply (reachable_intro
               (<["refreshToken" := "R1"]> (<["accessToken" := "T1"]> ∅))
               [Call getNodes; Deliver 0 unauthorized; Logout]).
      vm_compute. reflexivity.
    + repeat split; vm_compute; reflexivity.
    + destruct (H2 [] (mkTask (FromOperation getEdges) false None InFlight)
                  (mkResponse 401 (mkData None None "")))
        as (H3 & _ & _ & H5).
      * vm_compute. reflexivity.
      * reflexivity.
      * reflexivity.
      * reflexivity.
      * repeat split; vm_compute; reflexivity.
      * reflexivity.
      * split; [repeat split; vm_compute; reflexivity|].
        split; [vm_compute; reflexivity|].
        split; [exact H3|exact H5].
Defined.

(** C5 as stated fails: the process holds no credential, and [getNodes]
    puts a request on the wire. *)
Lemma request_without_credentials_reaches_network :
  Unauthenticated logged_out ∧
  wire logged_out = [] ∧
  wire (step logged_out (Call getNodes))
  = [mkSent 0 (FromOperation getNodes) None] ∧
  phase_of (step logged_out (Call getNodes)) 0 = Some InFlight.
Proof. repeat split; reflexivity. Qed.

(** * Sample runs of the properties above *)


Lemma single_flight_witness : 1 = 1 ∧ refreshing parked_one = Some 1.
Proof.
  apply (single_flight parked_one 1 1
           (mkTask (FromRefresh "R1") false (Some "Bearer T1") InFlight)
           (mkTask (FromRefresh "R1") false (Some "Bearer T1") InFlight)).
  - apply (reachable_intro
             (<["refreshToken" := "R1"]> (<["accessToken" := "T1"]> ∅))
             [Call getNodes; Deliver 0 unauthorized]).
    vm_compute. reflexivity.
  - vm_compute. reflexivity.
  - reflexivity.
  - reflexivity.
  - vm_compute. reflexivity.
  - reflexivity.
  - reflexivity.
Defined.

Lemma first_unauthorized_starts_refresh_witness :
  wire (step one_call (Deliver 0 (Answered (mkResponse 401 (mkData None None "")))))
  = (wire one_call ++ [mkSent (length (tasks one_call)) (FromRefresh "R1")
                              (Authorization one_call)])%list ∧
  refreshing (step one_call
                (Deliver 0 (Answered (mkResponse 401 (mkData None None "")))))
  = Some (length (tasks one_call)) ∧
  phase_of (step one_call
              (Deliver 0 (Answered (mkResponse 401 (mkData None None "")))))
           (length (tasks one_call)) = Some InFlight ∧
  phase_of (step one_call
              (Deliver 0 (Answered (mkResponse 401 (mkData None None ""))))) 0
  = Some (AwaitRefresh (length (tasks one_call)) true) ∧
  tasks (step one_call
           (Deliver 0 (Answered (mkResponse 401 (mkData None None ""))))) !! 0
  = Some (set_phase (AwaitRefresh (length (tasks one_call)) true)
            (set_retry true
               (mkTask (FromOperation getNodes) false (Some "Bearer T1")
                       InFlight))).
Proof.
  apply (first_unauthorized_starts_refresh one_call 0
           (mkTask (FromOperation getNodes) false (Some "Bearer T1") InFlight)
           (mkResponse 401 (mkData None None "")) "R1");
    vm_compute; reflexivity.
Defined.

Lemma later_unauthorized_joins_refresh_witness :
  wire (step parked_first
          (Deliver 1 (Answered (mkResponse 401 (mkData None None "")))))
  = wire parked_first ∧
  length (tasks (step parked_first
                   (Deliver 1 (Answered (mkResponse 401 (mkData None None ""))))))
  = length (tasks parked_first) ∧
  refreshing (step parked_first
                (Deliver 1 (Answered (mkResponse 401 (mkData None None "")))))
  = Some 2 ∧
  phase_of (step parked_first
              (Deliver 1 (Answered (mkResponse 401 (mkData None None ""))))) 1
  = Some (AwaitRefresh 2 false).
Proof.
  apply (later_unauthorized_joins_refresh parked_first 1
           (mkTask (FromOperation getEdges) false (Some "Bearer T1") InFlight)
           (mkResponse 401 (mkData None None "")) 2
           (mkTask (FromRefresh "R1") false (Some "Bearer T1") InFlight));
    vm_compute; reflexivity.
Defined.

Lemma refresh_failure_logs_out_witness :
  Unauthenticated (step parked_pair (Deliver 2 (NoAnswer "Network Error"))) ∧
  wire (step parked_pair (Deliver 2 (NoAnswer "Network Error")))
  = wire parked_pair ∧
  ∀ w t i, tasks parked_pair !! w = Some t → phase t = AwaitRefresh 2 i →
    tasks (step parked_pair (Deliver 2 (NoAnswer "Network Error"))) !! w
    = Some (abandoned (refresh_error (NoAnswer "Network Error")) t).
Proof.
  apply (refresh_failure_logs_out parked_pair 2
           (mkTask (FromRefresh "R1") false (Some "Bearer T1") InFlight)).
  - apply (reachable_intro
             (<["refreshToken" := "R1"]> (<["accessToken" := "T1"]> ∅))
             [Call getNodes; Call getEdges;
                            Deliver 0 unauthorized; Deliver 1 unauthorized]).
    vm_compute. reflexivity.
  - vm_compute. reflexivity.
  - reflexivity.
  - reflexivity.
  - left. exact I.
Defined.

Lemma retried_request_settles_witness :
  ∃ o, phase_of (step retried_once (Deliver 0 unauthorized)) 0
       = Some (Settled o).
Proof.
  apply (retried_request_settles retried_once 0
           (mkTask (FromOperation getNodes) true (Some "Bearer T2") InFlight));
    vm_compute; reflexivity.
Defined.


Lemma fetch_dangling_edge_witness :
  NetworkGraph.fetchNetworkData id id
    (inr (NetworkGraph.sample_nodes,
          [NetworkGraph.sample_edge; NetworkGraph.dangling_edge]))
    NetworkGraph.blank
  = NetworkGraph.mk [] [] false
      (Some "Invalid edge: source or target node not found for edge 11").
Proof.
  apply (fetch_dangling_edge id id NetworkGraph.sample_nodes
           [NetworkGraph.sample_edge] NetworkGraph.dangling_edge []
           NetworkGraph.blank).
  - constructor; [|constructor]. split; simpl.
    + by left.
    + right. by left.
  - intros [_ H]. simpl in H.
    repeat (apply elem_of_cons in H as [H|H]; [discriminate H|]).
    by apply elem_of_nil in H.
Defined.

Lemma fetch_service_failure_witness :
  NetworkGraph.fetchNetworkData id id
    (inl (ThrownAPIError
            (mkAPIError "Request failed with status code 400" 400
                        (Some (mkData None None "")))))
    NetworkGraph.blank
  = NetworkGraph.mk [] [] false (Some "Failed to fetch network data").
Proof.
  apply (fetch_service_failure id id three_refused 0
           (mkTask (FromOperation getNodes) true (Some "Bearer T1")
              (Settled (Threw (ThrownAPIError
                 (mkAPIError "Request failed with status code 400" 400
                             (Some (mkData None None "")))))))
           getNodes).
  - apply (reachable_intro
             (<["refreshToken" := "R1"]> (<["accessToken" := "T1"]> ∅))
             [Call getNodes; Call getEdges; Call getTransactions;
                            Deliver 0 unauthorized; Deliver 1 unauthorized;
                            Deliver 2 unauthorized;
                            Deliver 3 (answer 400 None None)]).
    vm_compute. reflexivity.
  - vm_compute. reflexivity.
  - reflexivity.
  - reflexivity.
Defined.
